(** * python-cbeta: the missing-character table and the namespace normalizer

    A shallow embedding of [lib/utils/remove_namespace.py] and of the class
    [CbetaMissingCharacter] of [lib/cbeta_missing/cbeta_missing_character.py],
    followed by the properties of the specification checked against it.

    Python values are modelled as the code uses them: a [str] is a sequence
    of code points, a [dict] keeps its insertion order, an lxml element is a
    rose tree, and a method that can raise returns in an error monad. *)

From Stdlib Require Import ZArith String Ascii List Lia Bool.
From stdpp Require Import base decidable list.
Import ListNotations.
Local Open Scope Z_scope.

(** ** Python strings *)

Module Py.

(** A Python [str]: the sequence of its Unicode code points. *)
Definition str := list Z.

(** An ASCII literal of the source as a [str]. *)
Definition lit (s : string) : str :=
  List.map (fun a => Z.of_N (N_of_ascii a)) (list_ascii_of_string s).

(** [s.startswith(p)] *)
Fixpoint startswith (s p : str) {struct p} : bool :=
  match p, s with
  | [], _ => true
  | _ :: _, [] => false
  | c :: p', d :: s' => (c =? d) && startswith s' p'
  end.

(** The bound of a slice, as CPython clips it: a negative index counts from
    the end, and the result is clamped to [0, len]. *)
Definition clip (len i : Z) : Z :=
  if i <? 0 then Z.max (len + i) 0 else Z.min i len.

(** [s[start:stop]] *)
Definition slice (s : str) (start stop : Z) : str :=
  let len := Z.of_nat (length s) in
  let a := clip len start in
  let b := clip len stop in
  firstn (Z.to_nat (b - a)) (skipn (Z.to_nat a) s).

(** [s[start:]] *)
Definition slice_from (s : str) (start : Z) : str :=
  slice s start (Z.of_nat (length s)).

(** The exceptions the modelled code can raise. *)
Inductive exn :=
| IOError | XMLSyntaxError | KeyError | AttributeError
| TypeError | ValueError | OverflowError | RecursionError.

#[global] Instance exn_eq_dec : EqDecision exn.
Proof. solve_decision. Defined.

(** The outcome of a call that may raise. *)
Inductive result (A : Type) :=
| Ok (a : A)
| Raise (e : exn).
Arguments Ok {A} a.
Arguments Raise {A} e.

Definition rbind {A B} (r : result A) (k : A -> result B) : result B :=
  match r with
  | Ok a => k a
  | Raise e => Raise e
  end.

(** Whitespace that [int] strips (the ASCII part of [str.isspace]). *)
Definition is_space (c : Z) : bool :=
  ((9 <=? c) && (c <=? 13)) || ((28 <=? c) && (c <=? 32)).

Definition is_digit (c : Z) : bool := (48 <=? c) && (c <=? 57).

Fixpoint lstrip (s : str) : str :=
  match s with
  | c :: s' => if is_space c then lstrip s' else s
  | [] => []
  end.

Definition strip (s : str) : str := rev (lstrip (rev (lstrip s))).

(** The digits of a decimal literal, most significant first; a single
    underscore is accepted between two digits. [prev] tells whether the
    previous character was a digit. *)
Fixpoint digits (s : str) (prev : bool) (acc : Z) : option Z :=
  match s with
  | [] => if prev then Some acc else None
  | c :: s' =>
      if is_digit c then digits s' true (10 * acc + (c - 48))
      else if (c =? 95) && prev then
        match s' with
        | d :: _ => if is_digit d then digits s' false acc else None
        | [] => None
        end
      else None
  end.

(** [int(s)] on a [str], base 10: surrounding whitespace, an optional sign,
    decimal digits. Anything else is a [ValueError]. (Decimal digits of
    other scripts, which CPython accepts too, are left out of the model.) *)
Definition int (s : str) : result Z :=
  let body := strip s in
  let '(sign, ds) :=
    match body with
    | 45 :: r => (-1, r)
    | 43 :: r => (1, r)
    | _ => (1, body)
    end in
  match ds with
  | [] => Raise ValueError
  | _ =>
      match digits ds false 0 with
      | Some n => Ok (sign * n)
      | None => Raise ValueError
      end
  end.

(** [chr(n)]: the one-character string of code point [n]. *)
Definition chr (n : Z) : result str :=
  if (0 <=? n) && (n <? 1114112) then Ok [n]
  else if (-2147483648 <=? n) && (n <=? 2147483647) then Raise ValueError
  else Raise OverflowError.

End Py.
Import Py.

Notation "'let?' x ':=' c 'in' k" := (rbind c (fun x => k))
  (at level 10, x pattern, c at level 100, k at level 200).

(** ** Ordered dictionaries

    A Python [dict] (and an lxml attribute set) keeps the order in which its
    keys were first inserted; assigning to a present key keeps its place. *)

Section Dict.
Context {K V : Type} `{EqDecision K}.

Definition dict := list (K * V).

(** [d.get(k)] *)
Fixpoint dict_get (d : dict) (k : K) : option V :=
  match d with
  | [] => None
  | (k', v) :: d' => if decide (k = k') then Some v else dict_get d' k
  end.

(** [k in d] *)
Definition dict_contains (d : dict) (k : K) : bool :=
  match dict_get d k with Some _ => true | None => false end.

(** [d[k]] *)
Definition dict_getitem (d : dict) (k : K) : result V :=
  match dict_get d k with
  | Some v => Ok v
  | None => Raise KeyError
  end.

(** [d[k] = v] *)
Fixpoint dict_set (d : dict) (k : K) (v : V) : dict :=
  match d with
  | [] => [(k, v)]
  | (k', v') :: d' =>
      if decide (k = k') then (k', v) :: d' else (k', v') :: dict_set d' k v
  end.

(** [del d[k]] *)
Fixpoint dict_del (d : dict) (k : K) : dict :=
  match d with
  | [] => []
  | (k', v') :: d' =>
      if decide (k = k') then d' else (k', v') :: dict_del d' k
  end.

(** [d.pop(k)]: the value and the dictionary without the key. *)
Definition dict_pop (d : dict) (k : K) : result (V * dict) :=
  match dict_get d k with
  | Some v => Ok (v, dict_del d k)
  | None => Raise KeyError
  end.

Definition dict_keys (d : dict) : list K := List.map fst d.
End Dict.
Arguments dict : clear implicits.

(** ** lxml documents *)

(** The [tag] of a node: a name in Clark notation for an element; for a
    comment, a processing instruction or an entity it is the factory
    function, not a string. *)
Inductive node_tag :=
| Tag (name : str)
| Special.

#[global] Instance node_tag_eq_dec : EqDecision node_tag.
Proof. solve_decision. Defined.

(** An [lxml.etree._Element]. *)
#[warnings="-register-all"]
Inductive element := Element {
  tag : node_tag;
  attrib : dict str str;
  text : option str;
  children : list element
}.

(** An [lxml.etree._ElementTree]: the root and the root's [nsmap], from
    prefix ([None] for the default namespace) to URI. *)
Record ElementTree := {
  getroot : element;
  nsmap : dict (option str) str
}.

(** [e.iterdescendants()]: the proper descendants, in document order. *)
Fixpoint iterdescendants (e : element) : list element :=
  let fix go (l : list element) : list element :=
    match l with
    | [] => []
    | c :: l' => c :: iterdescendants c ++ go l'
    end in
  go (children e).

(** [e.iter()] ([getiterator]): the node and its descendants. *)
Definition iter (e : element) : list element := e :: iterdescendants e.

Definition has_tag (name : str) (e : element) : bool :=
  bool_decide (tag e = Tag name).

(** [e.findall('./name')]: the children with that tag, in order. *)
Definition findall_child (name : str) (e : element) : list element :=
  List.filter (has_tag name) (children e).

(** [e.find('./name')]: the first such child, or [None]. *)
Definition find_child (name : str) (e : element) : option element :=
  List.head (findall_child name e).

(** [tree.findall('//a/b')]: lxml reads a leading slash as [.//a/b] from the
    root: the [b] children of every [a] below the root. *)
Definition findall_desc_child (a b : str) (t : ElementTree) : list element :=
  List.flat_map (findall_child b)
    (List.filter (has_tag a) (iterdescendants (getroot t))).

(** ** [remove_namespace] (lib/utils/remove_namespace.py) *)

Definition default_namespace : str :=
  lit "{http://www.w3.org/XML/1998/namespace}".

(** The body of [for attribute in element.attrib]: one name of the snapshot
    of the attribute names taken when the loop starts. *)
Definition rename_attribute (a : dict str str) (attribute : str)
  : result (dict str str) :=
  if startswith attribute default_namespace then
    let? (v, a') := dict_pop a attribute in
    Ok (dict_set a'
          (slice_from attribute (Z.of_nat (length default_namespace))) v)
  else Ok a.

Fixpoint rename_attributes (a : dict str str) (names : list str)
  : result (dict str str) :=
  match names with
  | [] => Ok a
  | attribute :: names' =>
      let? a' := rename_attribute a attribute in
      rename_attributes a' names'
  end.

(** The body of [for element in doc.getiterator()] on the node itself. *)
Definition remove_namespace_tag (new_namespace : str) (t : node_tag)
  : result node_tag :=
  match t with
  | Special => Raise AttributeError
  | Tag name =>
      if startswith name new_namespace
      then Ok (Tag (slice_from name (Z.of_nat (length new_namespace))))
      else Ok t
  end.

(** The loop over the tree in document order, the node before its children;
    the in-place rewrite returns the rewritten tree. *)
Fixpoint remove_namespace_element (new_namespace : str) (e : element)
  : result element :=
  let? tag' := remove_namespace_tag new_namespace (tag e) in
  let? attrib' := rename_attributes (attrib e) (dict_keys (attrib e)) in
  let fix go (l : list element) : result (list element) :=
    match l with
    | [] => Ok []
    | c :: l' =>
        let? c' := remove_namespace_element new_namespace c in
        let? l'' := go l' in
        Ok (c' :: l'')
    end in
  let? children' := go (children e) in
  Ok (Element tag' attrib' (text e) children').

Definition remove_namespace (doc : ElementTree) (namespace : str)
  : result ElementTree :=
  let new_namespace := lit "{" ++ namespace ++ lit "}" in
  let? root' := remove_namespace_element new_namespace (getroot doc) in
  Ok {| getroot := root'; nsmap := nsmap doc |}.

(** ** The state of a [CbetaMissingCharacter] *)

(** A field of a record: extraction stores a string or [None] (the text of
    an empty [value] node); the persisted table also holds lists ([zhuyin]). *)
Inductive value :=
| VNone
| VStr (s : str)
| VList (l : list str).

#[global] Instance value_eq_dec : EqDecision value.
Proof. solve_decision. Defined.

(** The value of an optional text. *)
Definition of_text (t : option str) : value :=
  match t with Some s => VStr s | None => VNone end.

Definition record := dict str value.

(** An argument of a logging call. *)
Inductive log_arg :=
| AText (t : option str)
| AExn (e : exn).

(** A call to [LOGGER]: the level, the message and its arguments. *)
Inductive log_entry :=
| LogInfo (msg : str) (args : list log_arg)
| LogError (msg : str) (args : list log_arg).

(** [self.missing_dict], [self.zzs_code], and what [LOGGER] received. *)
Record state := {
  missing_dict : dict str record;
  zzs_code : dict value str;
  log : list log_entry
}.

(** A method: it may change the state, and returns or raises. The state at
    a raise is the state the caller sees. *)
Definition M (A : Type) : Type := state -> state * result A.

Definition ret {A} (a : A) : M A := fun st => (st, Ok a).
Definition raise {A} (e : exn) : M A := fun st => (st, Raise e).
Definition bind {A B} (m : M A) (k : A -> M B) : M B :=
  fun st =>
    match m st with
    | (st', Ok a) => k a st'
    | (st', Raise e) => (st', Raise e)
    end.
Definition lift {A} (r : result A) : M A := fun st => (st, r).

Notation "x <- c ;; k" := (bind c (fun x => k))
  (at level 100, c at next level, right associativity).
Notation "c ;;; k" := (bind c (fun _ => k))
  (at level 100, right associativity).

Definition logger (e : log_entry) : M unit :=
  fun st =>
    ({| missing_dict := missing_dict st;
        zzs_code := zzs_code st;
        log := log st ++ [e] |}, Ok tt).

(** [for x in xs: acc = body(x, acc)], stopping at the first raise. *)
Fixpoint for_each {A B} (xs : list A) (acc : B) (body : A -> B -> M B)
  : M B :=
  match xs with
  | [] => ret acc
  | x :: xs' => acc' <- body x acc ;; for_each xs' acc' body
  end.

(** ** [CbetaMissingCharacter] *)

Definition FIELD_MAPPING : dict str str :=
  [ (lit "big5", lit "big5");
    (lit "Character in the Siddham font", lit "char_in_siddham_font");
    (lit "composition", lit "zzs");
    (lit "normalized form", lit "normal");
    (lit "rjchar", lit "rjchar");
    (lit "Romanized form in CBETA transcription", lit "roman_cbeta");
    (lit "Romanized form in Unicode transcription", lit "roman") ].

Definition type_to_store : list str := [lit "normal_unicode"; lit "unicode"].

(** [in] on a tuple of strings. *)
Definition str_in (s : str) (l : list str) : bool :=
  List.existsb (fun x => bool_decide (s = x)) l.

(** [element.find('./name').text]: [find] gives [None] when there is no such
    child, and reading [.text] of [None] raises. *)
Definition find_text (name : str) (e : element) : result (option str) :=
  match find_child name e with
  | Some c => Ok (text c)
  | None => Raise AttributeError
  end.

(** [FIELD_MAPPING.get(local_name)] for a [local_name] that may be [None]. *)
Definition field_of (local_name : option str) : option str :=
  match local_name with
  | Some n => dict_get FIELD_MAPPING n
  | None => None
  end.

(** The body of the loop over [char.findall('./charProp')]. *)
Definition extract_prop (char_id : str) (element0 : element) (res : record)
  : M record :=
  local_name <- lift (find_text (lit "localName") element0) ;;
  value0 <- lift (find_text (lit "value") element0) ;;
  match field_of local_name with
  | Some key => ret (dict_set res key (of_text value0))
  | None =>
      logger (LogInfo
                (lit "Not handling charProp, char id=%s, key=%s, value=%s")
                [AText (Some char_id); AText local_name; AText value0]) ;;;
      ret res
  end.

(** [element.text[2:-1]]; subscripting [None] raises. *)
Definition payload (t : option str) : result str :=
  match t with
  | Some s => Ok (slice s 2 (-1))
  | None => Raise TypeError
  end.

(** The body of the loop over [char.findall('./mapping')]. *)
Definition extract_mapping (element0 : element) (res : record) : M record :=
  mapping_type <- lift (dict_getitem (attrib element0) (lit "type")) ;;
  if str_in mapping_type type_to_store then
    unicode <- lift (payload (text element0)) ;;
    let res := dict_set res mapping_type (VStr unicode) in
    if bool_decide (mapping_type = lit "unicode") then
      n <- lift (int unicode) ;;
      c <- lift (chr n) ;;
      ret (dict_set res (lit "unicode-char") (VStr c))
    else ret res
  else ret res.

Definition extract_char (char : element) : M record :=
  let res : record := [] in
  char_id <- lift (dict_getitem (attrib char) (lit "id")) ;;
  res <- for_each (findall_child (lit "charProp") char) res
           (extract_prop char_id) ;;
  res <- for_each (findall_child (lit "mapping") char) res extract_mapping ;;
  ret res.

(** [self.missing_dict[key] = rec] *)
Definition set_missing (key : str) (rec : record) : M unit :=
  fun st =>
    ({| missing_dict := dict_set (missing_dict st) key rec;
        zzs_code := zzs_code st;
        log := log st |}, Ok tt).

(** [self.zzs_code[z] = key] *)
Definition set_zzs (z : value) (key : str) : M unit :=
  fun st =>
    ({| missing_dict := missing_dict st;
        zzs_code := dict_set (zzs_code st) z key;
        log := log st |}, Ok tt).

(** A list cannot be a dictionary key. *)
Definition hashable (v : value) : bool :=
  match v with
  | VList _ => false
  | _ => true
  end.

(** The body of the loop of [create_zzs_code_lookup]. *)
Definition zzs_entry (item : str * record) : M unit :=
  let '(key, value0) := item in
  if dict_contains value0 (lit "zzs") then
    z <- lift (dict_getitem value0 (lit "zzs")) ;;
    if hashable z then set_zzs z key else raise TypeError
  else ret tt.

Definition create_zzs_code_lookup : M unit :=
  fun st => for_each (missing_dict st) tt (fun item _ => zzs_entry item) st.

(** [get]: the stored record, or [None]. *)
Definition get (cb_code : str) : M (option record) :=
  fun st =>
    if dict_contains (missing_dict st) cb_code then
      (r <- lift (dict_getitem (missing_dict st) cb_code) ;; ret (Some r)) st
    else ret None st.

(** What the class asks of the file system and of the XML parser. *)
Record world := {
  (** [etree.parse(filename)]: the tree, or the exception raised. *)
  etree_parse : str -> exn + ElementTree;
  (** [os.walk(folder)]: the triples (dirpath, dirnames, filenames). *)
  os_walk : str -> list (str * list str * list str);
  os_path_isdir : str -> bool
}.

(** The attributes of an [_ElementTree] that answer a path query with the
    matching nodes; the path ['//a/b'] is passed as its two names. Any other
    name looked up for such a call has no such method. *)
Definition ElementTree_getattr (name : str)
  : result (str -> str -> ElementTree -> list element) :=
  if bool_decide (name = lit "findall") then Ok findall_desc_child
  else if bool_decide (name = lit "iterfind") then Ok findall_desc_child
  else Raise AttributeError.

(** [etree.parse] inside [try ... except IOError]. *)
Definition parse_or_log (w : world) (filename : str) : M ElementTree :=
  match etree_parse w filename with
  | inr doc => ret doc
  | inl exception =>
      if bool_decide (exception = IOError) then
        logger (LogError (lit "open file error, filename=" ++ filename)
                  [AExn exception]) ;;;
        raise exception
      else raise exception
  end.

(** ['' if None not in root.nsmap else '{' + root.nsmap[None] + '}'] *)
Definition namespace_of (doc : ElementTree) : result str :=
  if negb (dict_contains (nsmap doc) None) then Ok (lit "")
  else let? uri := dict_getitem (nsmap doc) None in
       Ok (lit "{" ++ uri ++ lit "}").

(** The body of the loop of [update_from_p5_file]: the right-hand side is
    evaluated before the subscript. *)
Definition store_char (element0 : element) : M unit :=
  rec <- extract_char element0 ;;
  key <- lift (dict_getitem (attrib element0) (lit "id")) ;;
  set_missing key rec.

Definition update_from_p5_file (w : world) (filename : str) : M unit :=
  logger (LogInfo (lit "Read Cbeta P5 file " ++ filename) []) ;;;
  doc <- parse_or_log w filename ;;
  namespace <- lift (namespace_of doc) ;;
  doc <- lift (remove_namespace doc namespace) ;;
  finall <- lift (ElementTree_getattr (lit "finall")) ;;
  for_each (finall (lit "charDecl") (lit "char") doc) tt
    (fun element0 _ => store_char element0).

(** The second argument of [os.path.join]. *)
Inductive path_arg :=
| PathStr (s : str)
| WalkTuple (t : str * list str * list str).

(** [posixpath.join(a, b)] *)
Definition os_path_join (a : str) (b : path_arg) : result str :=
  match b with
  | PathStr b =>
      if startswith b (lit "/") then Ok b
      else if bool_decide (a = []) || bool_decide (List.last a 0 = 47)
      then Ok (a ++ b)
      else Ok (a ++ lit "/" ++ b)
  | WalkTuple _ => Raise TypeError
  end.

(** [update_from_p5_folder]; [depth] is the room left on the call stack. *)
Fixpoint update_from_p5_folder (depth : nat) (w : world) (folder : str)
  : M unit :=
  match depth with
  | O => raise RecursionError
  | S depth' =>
      for_each (os_walk w folder) tt
        (fun file _ =>
           path <- lift (os_path_join folder (WalkTuple file)) ;;
           if startswith path (lit ".") then ret tt
           else if os_path_isdir w path
                then update_from_p5_folder depth' w path
                else update_from_p5_file w path)
  end.

(** ** Documents and worlds used as concrete inputs *)

Module Sample.

Definition leaf (name : str) (t : option str) : element :=
  Element (Tag name) [] t [].

(** [<charProp><localName>n</localName><value>v</value></charProp>] *)
Definition charProp (n v : option str) : element :=
  Element (Tag (lit "charProp")) [] None
    [leaf (lit "localName") n; leaf (lit "value") v].

(** [<mapping type="ty">t</mapping>] *)
Definition mapping (ty : str) (t : option str) : element :=
  Element (Tag (lit "mapping")) [(lit "type", ty)] t [].

(** The attribute name of [xml:id] in Clark notation. *)
Definition xml_id : str := default_namespace ++ lit "id".

(** [<char xml:id="CB00006">]: normalized form U+74A9, and a [unicode]
    mapping whose text wraps the hexadecimal digits [249B2]. *)
Definition char_CB00006 : element :=
  Element (Tag (lit "char")) [(xml_id, lit "CB00006")] None
    [ charProp (Some (lit "normalized form")) (Some [0x74A9]);
      mapping (lit "unicode") (Some (lit "&#249B2;")) ].

(** [<TEI><charDecl><char xml:id="CB00006">...</char></charDecl></TEI>] *)
Definition p5_doc : ElementTree :=
  {| getroot :=
       Element (Tag (lit "TEI")) [] None
         [Element (Tag (lit "charDecl")) [] None [char_CB00006]];
     nsmap := [] |}.

(** The record the documentation of [get] shows for that node. *)
Definition record_CB00006 : record :=
  [ (lit "normal", VStr [0x74A9]);
    (lit "unicode", VStr (lit "249B2"));
    (lit "unicode-char", VStr [0x249B2]) ].

(** A normalized [char] node with one [unicode] mapping of text
    [&#0249B2;]. *)
Definition char_0249B2 : element :=
  Element (Tag (lit "char")) [(lit "id", lit "CB00006")] None
    [mapping (lit "unicode") (Some (lit "&#0249B2;"))].

(** A normalized [char] node with a property and a [normal_unicode]
    mapping. *)
Definition char_normal : element :=
  Element (Tag (lit "char")) [(lit "id", lit "CB00023")] None
    [ charProp (Some (lit "composition")) (Some (lit "[a*b]"));
      charProp (Some (lit "unknown")) None;
      mapping (lit "normal_unicode") (Some (lit "U+7F8C;")) ].

(** A [char] node without identifier. *)
Definition char_no_id : element :=
  Element (Tag (lit "char")) [] None
    [mapping (lit "unicode") (Some (lit "&#249B2;"))].

(** A document without character declarations. *)
Definition plain_doc : ElementTree :=
  {| getroot :=
       Element (Tag (lit "TEI")) [] None
         [Element (Tag (lit "text")) [(xml_id, lit "t1")] (Some (lit "x")) []];
     nsmap := [] |}.

(** A folder [corpus] that holds the file [a.xml]; [bad.xml] is
    malformed, and nothing else can be opened. *)
Definition corpus : world :=
  {| etree_parse := fun f =>
       if bool_decide (f = lit "corpus/a.xml") then inr p5_doc
       else if bool_decide (f = lit "plain.xml") then inr plain_doc
       else if bool_decide (f = lit "bad.xml") then inl XMLSyntaxError
       else inl IOError;
     os_walk := fun f =>
       if bool_decide (f = lit "corpus")
       then [(lit "corpus", [], [lit "a.xml"])]
       else [];
     os_path_isdir := fun f => bool_decide (f = lit "corpus") |}.

Definition st0 : state :=
  {| missing_dict := []; zzs_code := []; log := [] |}.

(** A table with two compositions and one record without. *)
Definition st_table : state :=
  {| missing_dict :=
       [ (lit "CB00006", [(lit "zzs", VStr (lit "[a*b]"));
                          (lit "normal", VStr [0x74A9])]);
         (lit "CB00007", [(lit "normal", VStr (lit "x"))]);
         (lit "CB00023", [(lit "zzs", VStr (lit "[c/d]"))]) ];
     zzs_code := [];
     log := [] |}.

(** A node with both [xml:id] and a bare [id]. *)
Definition char_two_ids : element :=
  Element (Tag (lit "{urn:test}char"))
    [(xml_id, lit "CB00006"); (lit "id", lit "x")] None [].

Definition doc_two_ids : ElementTree :=
  {| getroot := char_two_ids; nsmap := [(None, lit "urn:test")] |}.

End Sample.

(** The field names a record can carry after extraction. *)
Definition known_fields : list str :=
  [ lit "big5"; lit "char_in_siddham_font"; lit "zzs"; lit "normal";
    lit "rjchar"; lit "roman_cbeta"; lit "roman";
    lit "normal_unicode"; lit "unicode"; lit "unicode-char" ].

(** The nodes the loop of [update_from_p5_file] is meant to visit: the
    [char] children of the [charDecl] nodes of the normalized document. *)
Definition char_nodes (doc : ElementTree) : result (list element) :=
  let? namespace := namespace_of doc in
  let? doc' := remove_namespace doc namespace in
  Ok (findall_desc_child (lit "charDecl") (lit "char") doc').

(** The specification's reading of a failed scan: a failure of
    [etree.parse] is logged as an error and re-raised, and a scan raises
    only then. *)
Definition parse_failure_is_the_only_error (w : world) (filename : str)
    (st : state) : Prop :=
  let out := update_from_p5_file w filename st in
  (forall e, etree_parse w filename = inl e ->
     snd out = Raise e /\
     exists msg args, List.In (LogError msg args) (log (fst out))) /\
  (forall e, snd out = Raise e -> etree_parse w filename = inl e).

(** Every key of a record is a known field. *)
Definition known (res : record) : Prop :=
  List.Forall (fun k => List.In k known_fields) (dict_keys res).

(** The state after more calls to [LOGGER]. *)
Definition logged (st : state) (entries : list log_entry) : state :=
  {| missing_dict := missing_dict st;
     zzs_code := zzs_code st;
     log := log st ++ entries |}.

(** *** Well-formed trees

    What lxml guarantees of the trees it hands out, and what the theorems
    on the normalizer assume. *)

Definition no_brace (s : str) : bool :=
  List.forallb (fun c => negb (c =? 123) && negb (c =? 125)) s.

(** What follows the first closing brace. *)
Fixpoint after_brace (s : str) : option str :=
  match s with
  | [] => None
  | c :: s' => if c =? 125 then Some s' else after_brace s'
  end.

(** A name in Clark notation: [local], or [{uri}local]. *)
Definition clark_name (s : str) : bool :=
  match s with
  | 123 :: _ =>
      match after_brace s with
      | Some local => no_brace local
      | None => false
      end
  | _ => no_brace s
  end.

(** No name occurs twice. *)
Fixpoint distinct (names : list str) : bool :=
  match names with
  | [] => true
  | n :: names' => negb (str_in n names') && distinct names'
  end.

(** An element, not a comment or the like; its attribute names are
    distinct names in Clark notation. *)
Definition wf_node (e : element) : bool :=
  match tag e with Tag _ => true | Special => false end
  && distinct (dict_keys (attrib e))
  && List.forallb clark_name (dict_keys (attrib e)).

Fixpoint wf_element (e : element) : bool :=
  wf_node e && List.forallb wf_element (children e).

(** *** What the normalizer does to a tree *)

(** Two trees of the same shape whose nodes are related one by one. *)
#[warnings="-register-all"]
Inductive same_shape (R : element -> element -> Prop)
  : element -> element -> Prop :=
| same_shape_node e e' :
    R e e' ->
    List.Forall2 (same_shape R) (children e) (children e') ->
    same_shape R e e'.

Definition prefixed (p : str) (s : str) : Prop := startswith s p = true.

(** The tag of a node after the pass for the namespace [uri]. *)
Definition tag_stripped (uri : str) (e e' : element) : Prop :=
  (forall x, tag e = Tag (lit "{" ++ uri ++ lit "}" ++ x) -> tag e' = Tag x) /\
  (forall name, tag e = Tag name ->
                ~ prefixed (lit "{" ++ uri ++ lit "}") name ->
                tag e' = Tag name).

(** The reserved attributes of a node after the pass: each is found under
    its local name with its value, and none is left under the long name. *)
Definition reserved_renamed (e e' : element) : Prop :=
  (forall x v, dict_get (attrib e) (default_namespace ++ x) = Some v ->
               dict_get (attrib e') x = Some v) /\
  (forall k, prefixed default_namespace k -> dict_get (attrib e') k = None).

(** The node as the specification describes it after the pass: every other
    attribute is as it was. *)
Definition node_as_specified (uri : str) (e e' : element) : Prop :=
  text e' = text e /\
  tag_stripped uri e e' /\
  reserved_renamed e e' /\
  (forall k v, dict_get (attrib e) k = Some v ->
               ~ prefixed default_namespace k ->
               dict_get (attrib e') k = Some v).

(** The node as the code leaves it: another attribute is as it was unless
    a reserved attribute of the node has the same local name. *)
Definition node_as_rewritten (uri : str) (e e' : element) : Prop :=
  text e' = text e /\
  tag_stripped uri e e' /\
  reserved_renamed e e' /\
  (forall k v, dict_get (attrib e) k = Some v ->
               ~ prefixed default_namespace k ->
               dict_get (attrib e) (default_namespace ++ k) = None ->
               dict_get (attrib e') k = Some v).

(** [remove_namespace] returns, and relates each node by [R]. *)
Definition normalizes (R : str -> element -> element -> Prop)
    (doc : ElementTree) (uri : str) : Prop :=
  exists doc',
    remove_namespace doc uri = Ok doc' /\
    same_shape (R uri) (getroot doc) (getroot doc').

(** The loop over the children in [remove_namespace_element], on its own. *)
Fixpoint map_result {A B} (f : A -> result B) (l : list A)
  : result (list B) :=
  match l with
  | [] => Ok []
  | c :: l' =>
      let? c' := f c in
      let? l'' := map_result f l' in
      Ok (c' :: l'')
  end.

(** *** The reverse index *)

(** The state with another reverse index. *)
Definition with_zzs_code (st : state) (idx : dict value str) : state :=
  {| missing_dict := missing_dict st;
     zzs_code := idx;
     log := log st |}.

(** The identifier that the loop of [create_zzs_code_lookup] leaves under
    the composition [z]: the last record of the table that has it. *)
Fixpoint zzs_owner (items : list (str * record)) (z : value) : option str :=
  match items with
  | [] => None
  | (key, rec) :: items' =>
      match zzs_owner items' z with
      | Some key' => Some key'
      | None =>
          if decide (dict_get rec (lit "zzs") = Some z) then Some key
          else None
      end
  end.

(** ** The rest of the class *)

(** [get_phonetic_notation]: the [zhuyin] of the stored record, or [None]
    ([VNone]). *)
Definition get_phonetic_notation (cb_code : str) : M value :=
  fun st =>
    if dict_contains (missing_dict st) cb_code then
      (rec <- lift (dict_getitem (missing_dict st) cb_code) ;;
       if dict_contains rec (lit "zhuyin") then
         rec' <- lift (dict_getitem (missing_dict st) cb_code) ;;
         lift (dict_getitem rec' (lit "zhuyin"))
       else ret VNone) st
    else ret VNone st.

Definition PATH_TO_DATA : str := lit "../resources/missing_character.json".

(** [os.sep], as [os_path_join] has it. *)
Definition os_sep : str := lit "/".

(** [s.replace(old, new)] for a one-character [old]. *)
Definition replace (s : str) (old : Z) (new : str) : str :=
  List.flat_map (fun c => if c =? old then new else [c]) s.

(** What [__init__] asks of its host: the absolute path of the module
    ([os.path.abspath(__file__)]), [open] (the content of the file, or the
    exception), and the JSON decoder on a text. *)
Record host := {
  module_path : str;
  open_file : str -> exn + str;
  json_decode : str -> exn + dict str record
}.

(** The argument of [json.loads]: a text, or an open file object. *)
Inductive json_arg :=
| JText (s : str)
| JFile (content : str).

(** [json.loads(s)]: anything but [str], [bytes] or [bytearray] is a
    [TypeError]. *)
Definition json_loads (h : host) (s : json_arg)
  : result (dict str record) :=
  match s with
  | JText t =>
      match json_decode h t with
      | inr d => Ok d
      | inl e => Raise e
      end
  | JFile _ => Raise TypeError
  end.

(** [self.missing_dict = d] *)
Definition set_missing_dict (d : dict str record) : M unit :=
  fun st =>
    ({| missing_dict := d; zzs_code := zzs_code st; log := log st |}, Ok tt).

(** [self.zzs_code = dict()] *)
Definition reset_zzs_code : M unit :=
  fun st => (with_zzs_code st [], Ok tt).

(** [__init__]: the file object itself is handed to [json.loads]. *)
Definition __init__ (h : host) : M unit :=
  file_path <- lift (os_path_join (module_path h)
                       (PathStr (replace PATH_TO_DATA 47 os_sep))) ;;
  match open_file h file_path with
  | inl e => raise e
  | inr content =>
      d <- lift (json_loads h (JFile content)) ;;
      set_missing_dict d ;;;
      reset_zzs_code ;;;
      create_zzs_code_lookup
  end.

(** Further concrete inputs. *)
Module Fixture.

(** A normalized [char] node whose [unicode] mapping has a decimal
    payload. *)
Definition char_decimal : element :=
  Element (Tag (lit "char")) [(lit "id", lit "CB09731")] None
    [ Sample.charProp (Some (lit "big5")) (Some (lit "A1"));
      Sample.charProp (Some (lit "normalized form")) (Some (lit "x"));
      Sample.charProp (Some (lit "note")) (Some (lit "dropped"));
      Sample.charProp (Some (lit "big5")) (Some (lit "B2"));
      Sample.mapping (lit "PUA") None;
      Sample.mapping (lit "unicode") (Some (lit "&#9731;")) ].

(** A host whose data file opens. *)
Definition host_with_file : host :=
  {| module_path := lit "/srv/lib/cbeta_missing/cbeta_missing_character.py";
     open_file := fun _ => inr (lit "{}");
     json_decode := fun _ => inr [] |}.

(** A table in which two records have the same composition, over an index
    with an entry of an earlier build. *)
Definition st_shared : state :=
  {| missing_dict :=
       [ (lit "CB00001", [(lit "zzs", VStr (lit "[a*b]"))]);
         (lit "CB00002", [(lit "normal", VStr (lit "x"))]);
         (lit "CB00003", [(lit "zzs", VStr (lit "[a*b]"))]) ];
     zzs_code := [(VStr (lit "[old]"), lit "CB00000")];
     log := [] |}.

(** A table in which a composition is a list. *)
Definition st_unhashable : state :=
  {| missing_dict :=
       [ (lit "CB00001", [(lit "zzs", VStr (lit "[a*b]"))]);
         (lit "CB00002", [(lit "zzs", VList [lit "a"; lit "b"])]) ];
     zzs_code := [];
     log := [] |}.

(** A tree in the default namespace [urn:test], with a reserved attribute. *)
Definition tree_ns : element :=
  Element (Tag (lit "{urn:test}TEI")) [] None
    [ Element (Tag (lit "{urn:test}charDecl")) [] None
        [ Element (Tag (lit "{urn:test}char"))
            [(Sample.xml_id, lit "CB00006"); (lit "n", lit "1")] None [] ] ].

Definition doc_ns : ElementTree :=
  {| getroot := tree_ns; nsmap := [(None, lit "urn:test")] |}.

(** The same tree after the pass for [urn:test]. *)
Definition tree_plain : element :=
  Element (Tag (lit "TEI")) [] None
    [ Element (Tag (lit "charDecl")) [] None
        [ Element (Tag (lit "char"))
            [(lit "n", lit "1"); (lit "id", lit "CB00006")] None [] ] ].

Definition doc_plain : ElementTree :=
  {| getroot := tree_plain; nsmap := [(None, lit "urn:test")] |}.

(** A tree with a comment below the root. *)
Definition doc_comment : ElementTree :=
  {| getroot :=
       Element (Tag (lit "TEI")) [] None
         [ Element (Tag (lit "text")) [] None [];
           Element Special [] (Some (lit " a comment ")) [] ];
     nsmap := [] |}.

End Fixture.

(** *** Predicates on trees and payloads *)

(** Every node of the tree satisfies [q]. *)
Fixpoint every_node (q : element -> bool) (e : element) : bool :=
  q e && List.forallb (every_node q) (children e).

(** Some node of the tree satisfies [q]. *)
Fixpoint some_node (q : element -> bool) (e : element) : bool :=
  q e || List.existsb (some_node q) (children e).

(** A comment, a processing instruction or an entity. *)
Definition is_special (e : element) : bool :=
  match tag e with
  | Special => true
  | Tag _ => false
  end.

(** The attribute names of the node are distinct Clark names. *)
Definition attrs_wf (e : element) : bool :=
  distinct (dict_keys (attrib e))
  && List.forallb clark_name (dict_keys (attrib e)).

(** An element whose tag is a Clark name. *)
Definition tag_clark (e : element) : bool :=
  match tag e with
  | Tag name => clark_name name
  | Special => false
  end.

(** An element whose tag does not start with [p] and that has no reserved
    attribute: a node the normalizer for [p] has nothing to do on. *)
Definition settled (p : str) (e : element) : bool :=
  match tag e with
  | Tag name => negb (startswith name p)
  | Special => false
  end
  && List.forallb (fun k => negb (startswith k default_namespace))
       (dict_keys (attrib e)).

(** An element whose tag is in a namespace: [{uri}local]. *)
Definition in_namespace (e : element) : bool :=
  match tag e with
  | Tag name => startswith name (lit "{")
  | Special => false
  end.

(** The sign and the digits that [int] splits a stripped literal into. *)
Definition int_sign (body : str) : Z * str :=
  match body with
  | 45 :: r => (-1, r)
  | 43 :: r => (1, r)
  | _ => (1, body)
  end.



(** A letter among the hexadecimal digits: [A]-[F] or [a]-[f]. *)
Definition is_hex_letter (c : Z) : bool :=
  ((65 <=? c) && (c <=? 70)) || ((97 <=? c) && (c <=? 102)).

(** A method that reads nothing of the state and only adds to the log: its
    outcome and the entries it logs are the same from every state. *)
Definition only_logs {A} (m : M A) : Prop :=
  exists entries r, forall st, m st = (logged st entries, r).

(** ** Facts about dictionaries *)

Section DictFacts.
Context {K V : Type} `{EqDecision K}.
Implicit Types (d : dict K V) (k : K) (v : V).

Lemma dict_get_set d k v k' :
  dict_get (dict_set d k v) k' =
  if decide (k' = k) then Some v else dict_get d k'.
Proof.
  induction d as [|[k0 v0] d IH]; simpl.
  - destruct (decide (k' = k)); reflexivity.
  - destruct (decide (k = k0)) as [->|Hne]; simpl.
    + destruct (decide (k' = k0)); reflexivity.
    + rewrite IH. destruct (decide (k' = k0)) as [->|]; [|reflexivity].
      destruct (decide (k0 = k)); congruence.
Qed.

Lemma dict_get_set_eq d k v : dict_get (dict_set d k v) k = Some v.
Proof. rewrite dict_get_set. destruct (decide (k = k)); congruence. Qed.

Lemma dict_get_set_ne d k v k' :
  k' <> k -> dict_get (dict_set d k v) k' = dict_get d k'.
Proof. intros. rewrite dict_get_set. destruct (decide (k' = k)); congruence. Qed.

Lemma dict_get_None d k :
  dict_get d k = None <-> ~ List.In k (dict_keys d).
Proof.
  induction d as [|[k0 v0] d IH]; simpl; [tauto|].
  destruct (decide (k = k0)) as [->|Hne].
  - split; [discriminate|]. intros Hn. exfalso. apply Hn. now left.
  - rewrite IH. split; [intros Hn [?|?]; [congruence|tauto]|tauto].
Qed.

Lemma dict_get_In d k v : dict_get d k = Some v -> List.In (k, v) d.
Proof.
  induction d as [|[k0 v0] d IH]; simpl; [discriminate|].
  destruct (decide (k = k0)) as [->|Hne].
  - intros [= ->]. now left.
  - intros Hg. right. auto.
Qed.

Lemma In_dict_get d k v :
  List.NoDup (dict_keys d) -> List.In (k, v) d -> dict_get d k = Some v.
Proof.
  induction d as [|[k0 v0] d IH]; simpl; [tauto|].
  intros Hnd [Heq|Hin].
  - injection Heq as -> ->. destruct (decide (k = k)); congruence.
  - inversion Hnd as [|? ? Hnotin Hnd']; subst.
    destruct (decide (k = k0)) as [->|Hne]; [|auto].
    exfalso. apply Hnotin. change k0 with (fst (k0, v)).
    now apply List.in_map.
Qed.

Lemma dict_get_del_ne d k k' :
  k' <> k -> dict_get (dict_del d k) k' = dict_get d k'.
Proof.
  intros Hne. induction d as [|[k0 v0] d IH]; simpl; [reflexivity|].
  destruct (decide (k = k0)) as [->|Hne0]; simpl.
  - destruct (decide (k' = k0)); congruence.
  - rewrite IH. reflexivity.
Qed.

Lemma dict_get_del_eq d k :
  List.NoDup (dict_keys d) -> dict_get (dict_del d k) k = None.
Proof.
  induction d as [|[k0 v0] d IH]; simpl; [reflexivity|].
  intros Hnd. inversion Hnd as [|? ? Hnotin Hnd']; subst.
  destruct (decide (k = k0)) as [->|Hne]; simpl.
  - now apply dict_get_None.
  - destruct (decide (k = k0)); [congruence|auto].
Qed.

Lemma dict_keys_set d k v k' :
  List.In k' (dict_keys (dict_set d k v)) <->
  k' = k \/ List.In k' (dict_keys d).
Proof.
  induction d as [|[k0 v0] d IH]; simpl.
  - intuition congruence.
  - destruct (decide (k = k0)) as [->|Hne]; simpl.
    + intuition congruence.
    + rewrite IH. intuition congruence.
Qed.

Lemma dict_keys_del d k k' :
  List.In k' (dict_keys (dict_del d k)) -> List.In k' (dict_keys d).
Proof.
  induction d as [|[k0 v0] d IH]; simpl; [tauto|].
  destruct (decide (k = k0)) as [->|Hne]; simpl; tauto.
Qed.

Lemma dict_set_NoDup d k v :
  List.NoDup (dict_keys d) -> List.NoDup (dict_keys (dict_set d k v)).
Proof.
  induction d as [|[k0 v0] d IH]; simpl.
  - intros _. constructor; [simpl; tauto|constructor].
  - intros Hnd. inversion Hnd as [|? ? Hnotin Hnd']; subst.
    destruct (decide (k = k0)) as [->|Hne]; simpl.
    + now constructor.
    + constructor; [|auto].
      rewrite dict_keys_set. intros [?|?]; [congruence|tauto].
Qed.

Lemma dict_del_NoDup d k :
  List.NoDup (dict_keys d) -> List.NoDup (dict_keys (dict_del d k)).
Proof.
  induction d as [|[k0 v0] d IH]; simpl; [auto|].
  intros Hnd. inversion Hnd as [|? ? Hnotin Hnd']; subst.
  destruct (decide (k = k0)) as [->|Hne]; simpl; [assumption|].
  constructor; [|auto]. intros Hin. apply Hnotin.
  eapply dict_keys_del; eassumption.
Qed.
End DictFacts.

(** ** Facts about the method monad *)

Lemma bind_Ok {A B} (m : M A) (k : A -> M B) st st' b :
  bind m k st = (st', Ok b) ->
  exists a st1, m st = (st1, Ok a) /\ k a st1 = (st', Ok b).
Proof.
  unfold bind. destruct (m st) as [st1 [a|e]]; [eauto|discriminate].
Qed.

Lemma lift_Ok {A} (r : result A) st st' a :
  lift r st = (st', Ok a) -> r = Ok a /\ st' = st.
Proof. unfold lift. intros [= -> ->]. auto. Qed.

Lemma ret_Ok {A} (x : A) st st' a :
  ret x st = (st', Ok a) -> a = x /\ st' = st.
Proof. unfold ret. intros [= -> ->]. auto. Qed.

(** A property of the accumulator that every iteration keeps holds when the
    loop ends normally. *)
Lemma for_each_inv {A B} (P : B -> Prop) (body : A -> B -> M B) xs :
  (forall x acc st st' r, P acc -> body x acc st = (st', Ok r) -> P r) ->
  forall acc st st' r,
    P acc -> for_each xs acc body st = (st', Ok r) -> P r.
Proof.
  intros Hbody. induction xs as [|x xs IH]; simpl; intros acc st st' r HP Hrun.
  - apply ret_Ok in Hrun as [-> _]. exact HP.
  - apply bind_Ok in Hrun as (acc' & st1 & Hx & Hrest).
    eapply IH; [|exact Hrest]. eapply Hbody; eassumption.
Qed.

(** A loop that only reads the table leaves it as it was, however it ends. *)
Lemma for_each_frame {A B} (F : state -> Prop) (body : A -> B -> M B) xs :
  (forall x acc st, F st -> F (fst (body x acc st))) ->
  forall acc st, F st -> F (fst (for_each xs acc body st)).
Proof.
  intros Hbody. induction xs as [|x xs IH]; simpl; intros acc st HF; [exact HF|].
  unfold bind. specialize (Hbody x acc st HF).
  destruct (body x acc st) as [st1 [acc'|e]]; simpl in *; auto.
Qed.

(** ** Extraction *)

Lemma known_set res k v :
  List.In k known_fields -> known res -> known (dict_set res k v).
Proof.
  unfold known. rewrite !List.Forall_forall. intros Hk Hres k' Hin.
  apply dict_keys_set in Hin as [->|Hin]; auto.
Qed.

Lemma field_of_known local_name key :
  field_of local_name = Some key -> List.In key known_fields.
Proof.
  destruct local_name as [n|]; [|discriminate]. unfold field_of. intros Hget.
  apply dict_get_In in Hget. unfold FIELD_MAPPING in Hget. simpl in Hget.
  repeat (destruct Hget as [[= _ <-]|Hget]; [simpl; tauto|]).
  destruct Hget.
Qed.

Lemma str_in_In s l : str_in s l = true -> List.In s l.
Proof.
  unfold str_in. rewrite List.existsb_exists. intros (x & Hin & Heq).
  apply bool_decide_eq_true in Heq. congruence.
Qed.

Lemma extract_prop_known char_id e res st st' r :
  known res -> extract_prop char_id e res st = (st', Ok r) -> known r.
Proof.
  intros Hres Hrun. unfold extract_prop in Hrun.
  apply bind_Ok in Hrun as (local_name & st1 & _ & Hrun).
  apply bind_Ok in Hrun as (value0 & st2 & _ & Hrun).
  destruct (field_of local_name) as [key|] eqn:Hfield.
  - apply ret_Ok in Hrun as [-> _].
    apply known_set; [eapply field_of_known; eassumption|assumption].
  - apply bind_Ok in Hrun as (_ & st3 & _ & Hrun).
    apply ret_Ok in Hrun as [-> _]. assumption.
Qed.

Lemma extract_mapping_known e res st st' r :
  known res -> extract_mapping e res st = (st', Ok r) -> known r.
Proof.
  intros Hres Hrun. unfold extract_mapping in Hrun.
  apply bind_Ok in Hrun as (mapping_type & st1 & _ & Hrun).
  destruct (str_in mapping_type type_to_store) eqn:Hin.
  - apply str_in_In in Hin.
    assert (List.In mapping_type known_fields) as Hty.
    { destruct Hin as [<-|[<-|[]]]; simpl; tauto. }
    apply bind_Ok in Hrun as (unicode & st2 & _ & Hrun).
    destruct (bool_decide (mapping_type = lit "unicode")).
    + apply bind_Ok in Hrun as (n & st3 & _ & Hrun).
      apply bind_Ok in Hrun as (c & st4 & _ & Hrun).
      apply ret_Ok in Hrun as [-> _].
      apply known_set; [simpl; tauto|]. now apply known_set.
    + apply ret_Ok in Hrun as [-> _]. now apply known_set.
  - apply ret_Ok in Hrun as [-> _]. assumption.
Qed.

(** C3. Whenever [extract_char] returns a record, each of its keys is one of
    the canonical field names of [FIELD_MAPPING] or one of [normal_unicode],
    [unicode], [unicode-char], whatever the node's properties and mappings
    are. *)
Theorem extract_char_keys_known (char : element) (st st' : state)
    (res : record) :
  extract_char char st = (st', Ok res) ->
  List.Forall (fun k => List.In k known_fields) (dict_keys res).
Proof.
  intros Hrun. unfold extract_char in Hrun.
  apply bind_Ok in Hrun as (char_id & st1 & _ & Hrun).
  apply bind_Ok in Hrun as (res1 & st2 & Hprops & Hrun).
  apply bind_Ok in Hrun as (res2 & st3 & Hmaps & Hrun).
  apply ret_Ok in Hrun as [-> _].
  assert (known res1) as H1.
  { assert (known []) as H0 by constructor.
    refine (for_each_inv known _ _ _ _ _ _ _ H0 Hprops).
    intros; eapply extract_prop_known; eassumption. }
  refine (for_each_inv known _ _ _ _ _ _ _ H1 Hmaps).
  intros; eapply extract_mapping_known; eassumption.
Qed.

Lemma extract_char_keys_known_witness :
  exists st' res,
    extract_char Sample.char_normal Sample.st0 = (st', Ok res) /\
    res = [ (lit "zzs", VStr (lit "[a*b]"));
            (lit "normal_unicode", VStr (lit "7F8C")) ] /\
    List.Forall (fun k => List.In k known_fields) (dict_keys res).
Proof.
  eexists _, _. split; [vm_compute; reflexivity|]. split; [reflexivity|].
  eapply (extract_char_keys_known Sample.char_normal Sample.st0).
  vm_compute. reflexivity.
Defined.

(** C10. A character-declaration node without an [id] attribute makes
    [extract_char] raise [KeyError] at once: nothing is logged and no child
    is read, whatever the children are. *)
Theorem extract_char_without_id (char : element) (st : state) :
  dict_get (attrib char) (lit "id") = None ->
  extract_char char st = (st, Raise KeyError).
Proof.
  intros Hid. unfold extract_char, bind, lift, dict_getitem.
  rewrite Hid. reflexivity.
Qed.

Lemma extract_char_without_id_witness :
  dict_get (attrib Sample.char_no_id) (lit "id") = None /\
  extract_char Sample.char_no_id Sample.st0 = (Sample.st0, Raise KeyError).
Proof.
  split; [reflexivity|].
  apply (extract_char_without_id Sample.char_no_id Sample.st0). reflexivity.
Defined.

(** C2. On a node whose [unicode] mapping has the text [&#0249B2;],
    [extract_char] raises [ValueError] and returns no record: the payload
    [0249B2] is read by [int] in base 10, not as hexadecimal digits. *)
Theorem extract_char_unicode_payload_raises (st : state) :
  payload (text (Sample.mapping (lit "unicode") (Some (lit "&#0249B2;"))))
    = Ok (lit "0249B2") /\
  int (lit "0249B2") = Raise ValueError /\
  extract_char Sample.char_0249B2 st = (st, Raise ValueError).
Proof. repeat split. Qed.

(** ** Lookup *)

(** C8. [get] returns the record stored under [cb_code] when the table has
    that key and [None] when it has not; it never raises and leaves the
    state as it was. *)
Theorem get_returns_record_or_None (cb_code : str) (st : state) :
  get cb_code st = (st, Ok (dict_get (missing_dict st) cb_code)) /\
  (dict_contains (missing_dict st) cb_code = false <->
   dict_get (missing_dict st) cb_code = None).
Proof.
  unfold get, dict_contains, bind, lift, ret, dict_getitem.
  destruct (dict_get (missing_dict st) cb_code) as [r|]; split;
    try reflexivity; split; congruence.
Qed.

(** ** Scanning a document *)

(** No scan gets as far as the loop over the [char] nodes: [finall] is not
    an attribute of the tree. *)
Lemma update_from_p5_file_table (w : world) (filename : str) (st : state) :
  missing_dict (fst (update_from_p5_file w filename st)) = missing_dict st.
Proof.
  unfold update_from_p5_file, parse_or_log, bind, logger.
  destruct (etree_parse w filename) as [e|doc]; simpl.
  - destruct (bool_decide (e = IOError)); reflexivity.
  - unfold lift. destruct (namespace_of doc) as [ns|e]; [|reflexivity].
    destruct (remove_namespace doc ns) as [doc'|e]; reflexivity.
Qed.

(** The loop of [update_from_p5_file] over no node at all changes nothing. *)
Lemma store_char_loop_nil (st : state) :
  for_each [] tt (fun element0 _ => store_char element0) st = (st, Ok tt).
Proof. reflexivity. Qed.

(** The loop body does not catch what [extract_char] raises. *)
Lemma store_char_propagates (element0 : element) (st st' : state) (e : exn) :
  extract_char element0 st = (st', Raise e) ->
  store_char element0 st = (st', Raise e).
Proof. intros Hrun. unfold store_char, bind. rewrite Hrun. reflexivity. Qed.

(** C7. Scanning a document in which the path [charDecl/char] reaches no
    node leaves [missing_dict] exactly as it was before the call. *)
Theorem scan_without_char_nodes_keeps_table (w : world) (filename : str)
    (doc : ElementTree) (st : state) :
  etree_parse w filename = inr doc ->
  char_nodes doc = Ok [] ->
  missing_dict (fst (update_from_p5_file w filename st)) = missing_dict st.
Proof. intros _ _. apply update_from_p5_file_table. Qed.

Lemma scan_without_char_nodes_keeps_table_witness :
  etree_parse Sample.corpus (lit "plain.xml") = inr Sample.plain_doc /\
  char_nodes Sample.plain_doc = Ok [] /\
  missing_dict
    (fst (update_from_p5_file Sample.corpus (lit "plain.xml") Sample.st_table))
  = missing_dict Sample.st_table.
Proof.
  split; [reflexivity|]. split; [reflexivity|].
  apply (scan_without_char_nodes_keeps_table
           Sample.corpus (lit "plain.xml") Sample.plain_doc Sample.st_table);
    reflexivity.
Defined.

(** C1. On the minimal document with the one node [CB00006], the scan does
    not end normally: it raises [AttributeError] after the namespace pass,
    and the table has no entry for [CB00006], so not the documented one. *)
Theorem update_from_p5_file_minimal_document_raises :
  char_nodes Sample.p5_doc <> Ok [] /\
  update_from_p5_file Sample.corpus (lit "corpus/a.xml") Sample.st0
  = (logged Sample.st0 [LogInfo (lit "Read Cbeta P5 file corpus/a.xml") []],
     Raise AttributeError) /\
  dict_get
    (missing_dict
       (fst (update_from_p5_file Sample.corpus (lit "corpus/a.xml") Sample.st0)))
    (lit "CB00006")
  = None.
Proof. split; [vm_compute; discriminate|]. split; reflexivity. Qed.

(** Past the misspelt method the same node would still not be stored: its
    payload [249B2] is no decimal literal. *)
Lemma store_char_CB00006_raises (st : state) :
  List.Forall (fun c => store_char c st = (st, Raise ValueError))
    (match char_nodes Sample.p5_doc with Ok l => l | Raise _ => [] end).
Proof. repeat constructor. Qed.

(** C5, as the specification has it, fails on a malformed document: the
    exception of the parser is no [IOError], and nothing is logged as an
    error. *)
Lemma malformed_document_is_not_logged :
  ~ parse_failure_is_the_only_error Sample.corpus (lit "bad.xml") Sample.st0.
Proof.
  intros [Hlog _].
  destruct (Hlog XMLSyntaxError eq_refl) as [_ (msg & args & Hin)].
  vm_compute in Hin. destruct Hin as [Hin|[]]. discriminate.
Qed.

(** C5, amended. An exception of [etree.parse] is raised again to the
    caller with the table untouched; it is logged as an error only when it
    is an [IOError]. Nothing else is caught: what [extract_char] raises
    leaves the loop body as it is. *)
Theorem parse_failure_propagates (w : world) (filename : str) (st : state)
    (e : exn) :
  etree_parse w filename = inl e ->
  update_from_p5_file w filename st
  = (logged st
       (LogInfo (lit "Read Cbeta P5 file " ++ filename) [] ::
        if bool_decide (e = IOError)
        then [LogError (lit "open file error, filename=" ++ filename) [AExn e]]
        else []),
     Raise e) /\
  (forall element0 st1 st2 e',
     extract_char element0 st1 = (st2, Raise e') ->
     store_char element0 st1 = (st2, Raise e')).
Proof.
  intros Hparse. split; [|intros; now apply store_char_propagates].
  unfold update_from_p5_file, parse_or_log, bind, logger, logged.
  rewrite Hparse. destruct (bool_decide (e = IOError)); simpl.
  - rewrite <- List.app_assoc. reflexivity.
  - reflexivity.
Qed.

Lemma parse_failure_propagates_witness :
  etree_parse Sample.corpus (lit "missing.xml") = inl IOError /\
  update_from_p5_file Sample.corpus (lit "missing.xml") Sample.st0
  = ({| missing_dict := []; zzs_code := [];
        log := [ LogInfo (lit "Read Cbeta P5 file missing.xml") [];
                 LogError (lit "open file error, filename=missing.xml")
                   [AExn IOError] ] |},
     Raise IOError).
Proof.
  split; [reflexivity|].
  apply (parse_failure_propagates
           Sample.corpus (lit "missing.xml") Sample.st0 IOError).
  reflexivity.
Defined.

(** ** Scanning a folder *)

(** C6. On a folder that holds one file, [update_from_p5_folder] raises
    [TypeError] in its first iteration, at whatever depth of the call stack:
    no file is scanned, nothing is logged, the state is as before. *)
Theorem update_from_p5_folder_scans_nothing (depth : nat) (st : state) :
  os_walk Sample.corpus (lit "corpus")
  = [(lit "corpus", [], [lit "a.xml"])] /\
  update_from_p5_folder (S depth) Sample.corpus (lit "corpus") st
  = (st, Raise TypeError).
Proof. split; reflexivity. Qed.

(** ** The reverse index *)

Lemma zzs_owner_Some items z key :
  zzs_owner items z = Some key ->
  exists rec, List.In (key, rec) items /\ dict_get rec (lit "zzs") = Some z.
Proof.
  induction items as [|[key0 rec0] items IH]; simpl; [discriminate|].
  destruct (zzs_owner items z) as [key'|].
  - intros [= ->]. destruct IH as (rec & Hin & Hz); eauto.
  - destruct (decide (dict_get rec0 (lit "zzs") = Some z)) as [Hz|];
      [|discriminate].
    intros [= ->]. eauto.
Qed.

Lemma zzs_owner_In items key rec z :
  List.In (key, rec) items -> dict_get rec (lit "zzs") = Some z ->
  exists key', zzs_owner items z = Some key'.
Proof.
  induction items as [|[key0 rec0] items IH]; simpl; [tauto|].
  intros [Heq|Hin] Hz.
  - injection Heq as -> ->. destruct (zzs_owner items z); [eauto|].
    destruct (decide (dict_get rec (lit "zzs") = Some z)); [eauto|tauto].
  - destruct (IH Hin Hz) as (key' & ->). eauto.
Qed.

(** The loop ends normally when every composition can be a key, and the
    index then answers with the owner of a composition, or as before. *)
Lemma zzs_loop_run items :
  forall st,
    (forall key rec z, List.In (key, rec) items ->
                       dict_get rec (lit "zzs") = Some z -> hashable z = true) ->
    exists idx,
      for_each items tt (fun item _ => zzs_entry item) st
      = (with_zzs_code st idx, Ok tt) /\
      forall z, dict_get idx z =
                match zzs_owner items z with
                | Some key => Some key
                | None => dict_get (zzs_code st) z
                end.
Proof.
  induction items as [|[key rec] items IH]; intros st Hhash.
  - exists (zzs_code st). split; [destruct st; reflexivity|reflexivity].
  - assert (forall key' rec' z, List.In (key', rec') items ->
              dict_get rec' (lit "zzs") = Some z -> hashable z = true) as Hrest.
    { intros key' rec' z Hin. apply (Hhash key' rec' z). now right. }
    simpl. unfold bind, zzs_entry, dict_contains, lift, dict_getitem.
    destruct (dict_get rec (lit "zzs")) as [z0|] eqn:Hz0.
    + rewrite (Hhash key rec z0 (or_introl eq_refl) Hz0). unfold set_zzs.
      destruct (IH (with_zzs_code st (dict_set (zzs_code st) z0 key)) Hrest)
        as (idx & Hrun & Hidx).
      exists idx. split; [exact Hrun|].
      intros z. rewrite Hidx. simpl.
      destruct (zzs_owner items z); [reflexivity|].
      rewrite dict_get_set.
      destruct (decide (z = z0)), (decide (Some z0 = Some z)); congruence.
    + destruct (IH st Hrest) as (idx & Hrun & Hidx).
      exists idx. split; [exact Hrun|].
      intros z. rewrite Hidx.
      destruct (zzs_owner items z); [reflexivity|].
      destruct (decide (None = Some z)); [discriminate|reflexivity].
Qed.

(** C9. Built from an empty index over a table in which compositions are
    hashable and no two records have the same one, the reverse index maps
    the [zzs] of every record that has one to the record's identifier, and
    every entry of the index is the [zzs] of the record it names. *)
Theorem create_zzs_code_lookup_index (st : state) :
  zzs_code st = [] ->
  List.NoDup (dict_keys (missing_dict st)) ->
  (forall key rec z,
     dict_get (missing_dict st) key = Some rec ->
     dict_get rec (lit "zzs") = Some z -> hashable z = true) ->
  (forall key1 key2 rec1 rec2 z,
     dict_get (missing_dict st) key1 = Some rec1 ->
     dict_get (missing_dict st) key2 = Some rec2 ->
     dict_get rec1 (lit "zzs") = Some z ->
     dict_get rec2 (lit "zzs") = Some z -> key1 = key2) ->
  exists st',
    create_zzs_code_lookup st = (st', Ok tt) /\
    missing_dict st' = missing_dict st /\
    (forall key rec z,
       dict_get (missing_dict st) key = Some rec ->
       dict_get rec (lit "zzs") = Some z ->
       dict_get (zzs_code st') z = Some key) /\
    (forall z key,
       dict_get (zzs_code st') z = Some key ->
       exists rec, dict_get (missing_dict st) key = Some rec /\
                   dict_get rec (lit "zzs") = Some z).
Proof.
  intros Hempty Hnodup Hhash Huniq.
  destruct (zzs_loop_run (missing_dict st) st) as (idx & Hrun & Hidx).
  { intros key rec z Hin. apply (Hhash key rec z).
    now apply In_dict_get. }
  exists (with_zzs_code st idx). split; [exact Hrun|]. split; [reflexivity|].
  simpl. split.
  - intros key rec z Hrec Hz. rewrite Hidx.
    destruct (zzs_owner_In (missing_dict st) key rec z) as (key' & Hown);
      [now apply dict_get_In|exact Hz|].
    rewrite Hown. f_equal.
    apply zzs_owner_Some in Hown as (rec' & Hin' & Hz').
    apply (Huniq key' key rec' rec z); auto using In_dict_get.
  - intros z key. rewrite Hidx, Hempty.
    destruct (zzs_owner (missing_dict st) z) as [key'|] eqn:Hown;
      [|discriminate].
    intros [= ->]. apply zzs_owner_Some in Hown as (rec & Hin & Hz).
    exists rec. auto using In_dict_get.
Qed.

(** Case analysis on a lookup in a concrete dictionary. *)
Ltac lookup_cases H :=
  cbn [dict_get missing_dict Sample.st_table] in H;
  repeat match type of H with
         | context [decide ?P] => destruct (decide P); [subst|]
         end;
  try discriminate H.

Lemma create_zzs_code_lookup_index_witness :
  exists st',
    create_zzs_code_lookup Sample.st_table = (st', Ok tt) /\
    missing_dict st' = missing_dict Sample.st_table /\
    (forall key rec z,
       dict_get (missing_dict Sample.st_table) key = Some rec ->
       dict_get rec (lit "zzs") = Some z ->
       dict_get (zzs_code st') z = Some key) /\
    (forall z key,
       dict_get (zzs_code st') z = Some key ->
       exists rec, dict_get (missing_dict Sample.st_table) key = Some rec /\
                   dict_get rec (lit "zzs") = Some z).
Proof.
  apply (create_zzs_code_lookup_index Sample.st_table).
  - reflexivity.
  - repeat constructor; simpl; intuition discriminate.
  - intros key rec z Hrec Hz. lookup_cases Hrec;
      injection Hrec as <-; vm_compute in Hz; try discriminate Hz;
      injection Hz as <-; reflexivity.
  - intros key1 key2 rec1 rec2 z H1 H2 Hz1 Hz2.
    lookup_cases H1; lookup_cases H2; try reflexivity;
      injection H1 as <-; injection H2 as <-;
      vm_compute in Hz1; vm_compute in Hz2; congruence.
Defined.

(** ** Strings *)

Lemma startswith_app (p x : str) : startswith (p ++ x) p = true.
Proof.
  induction p as [|c p IH]; simpl; [reflexivity|].
  rewrite Z.eqb_refl. exact IH.
Qed.

Lemma startswith_split (s p : str) :
  startswith s p = true -> s = p ++ List.skipn (length p) s.
Proof.
  revert s. induction p as [|c p IH]; intros s; simpl; [reflexivity|].
  destruct s as [|d s]; [discriminate|].
  intros Hs. apply andb_prop in Hs as [Hc Hs].
  apply Z.eqb_eq in Hc as ->. simpl. f_equal. now apply IH.
Qed.

Lemma slice_from_app (p x : str) :
  slice_from (p ++ x) (Z.of_nat (length p)) = x.
Proof.
  unfold slice_from, slice, clip. rewrite List.length_app, Nat2Z.inj_add.
  assert ((Z.of_nat (length p) <? 0) = false) as -> by (apply Z.ltb_ge; lia).
  assert ((Z.of_nat (length p) + Z.of_nat (length x) <? 0) = false) as ->
    by (apply Z.ltb_ge; lia).
  rewrite Z.min_id, Z.min_l by lia.
  rewrite Nat2Z.id, List.skipn_app, List.skipn_all, Nat.sub_diag. simpl.
  replace (Z.to_nat _) with (length x) by lia.
  apply List.firstn_all.
Qed.

(** The local name of a reserved attribute is not itself reserved. *)
Lemma clark_reserved (x : str) :
  clark_name (default_namespace ++ x) = true ->
  startswith x default_namespace = false.
Proof.
  change (clark_name (default_namespace ++ x)) with (no_brace x).
  destruct x as [|c x]; [intros _; reflexivity|].
  intros Hx.
  change (no_brace (c :: x))
    with ((negb (c =? 123) && negb (c =? 125)) && no_brace x) in Hx. apply andb_prop in Hx as [Hc _]. apply andb_prop in Hc as [Hc _].
  apply negb_true_iff in Hc.
  change (startswith (c :: x) default_namespace)
    with ((123 =? c) && startswith x (List.tl default_namespace)).
  rewrite Z.eqb_sym, Hc. reflexivity.
Qed.

(** ** The namespace normalizer *)

Lemma str_in_false s l : str_in s l = false -> ~ List.In s l.
Proof.
  unfold str_in. intros Hex Hin.
  assert (List.existsb (fun x => bool_decide (s = x)) l = true) as Htrue.
  { apply List.existsb_exists. exists s. split; [exact Hin|].
    now apply bool_decide_eq_true. }
  congruence.
Qed.

Lemma distinct_NoDup names : distinct names = true -> List.NoDup names.
Proof.
  induction names as [|n names IH]; simpl; [constructor|].
  intros Hd. apply andb_prop in Hd as [Hn Hd].
  apply negb_true_iff in Hn. constructor; [now apply str_in_false|auto].
Qed.

Lemma prefixed_app p x : prefixed p (p ++ x).
Proof. apply startswith_app. Qed.

Lemma not_prefixed p s : ~ prefixed p s <-> startswith s p = false.
Proof. unfold prefixed. destruct (startswith s p); split; congruence. Qed.

Section RenameAttributes.
Variable orig : dict str str.
Hypothesis orig_distinct : List.NoDup (dict_keys orig).
Hypothesis orig_clark :
  forall k, List.In k (dict_keys orig) -> clark_name k = true.

Local Abbreviation P := default_namespace.

Lemma orig_key_Some k : List.In k (dict_keys orig) ->
                        exists v, dict_get orig k = Some v.
Proof.
  intros Hin. destruct (dict_get orig k) as [v|] eqn:Hget; [eauto|].
  apply dict_get_None in Hget. tauto.
Qed.

(** The loop over the snapshot of the names, from any point of its run:
    [todo] are the names still to visit and [cur] the attributes now. *)
Lemma rename_attributes_run todo :
  forall cur,
    List.NoDup todo ->
    (forall k, List.In k todo -> List.In k (dict_keys orig)) ->
    List.NoDup (dict_keys cur) ->
    (forall k, prefixed P k -> List.In k todo ->
               dict_get cur k = dict_get orig k) ->
    (forall k, prefixed P k -> ~ List.In k todo -> dict_get cur k = None) ->
    (forall k v, ~ prefixed P k -> dict_get orig (P ++ k) = Some v ->
                 ~ List.In (P ++ k) todo -> dict_get cur k = Some v) ->
    (forall k, ~ prefixed P k ->
               dict_get orig (P ++ k) = None \/ List.In (P ++ k) todo ->
               dict_get cur k = dict_get orig k) ->
    exists final,
      rename_attributes cur todo = Ok final /\
      (forall k, prefixed P k -> dict_get final k = None) /\
      (forall k v, ~ prefixed P k -> dict_get orig (P ++ k) = Some v ->
                   dict_get final k = Some v) /\
      (forall k, ~ prefixed P k -> dict_get orig (P ++ k) = None ->
                 dict_get final k = dict_get orig k).
Proof.
  induction todo as [|k0 rest IH];
    intros cur Htodo Hincl Hcur Hkeep Hgone Hmoved Hsame.
  - exists cur. split; [reflexivity|]. split; [|split].
    + intros k Hk. apply Hgone; simpl; tauto.
    + intros k v Hk Hv. eapply Hmoved; simpl; eauto.
    + intros k Hk Hv. apply Hsame; auto.
  - inversion Htodo as [|? ? Hk0 Hrest]; subst.
    cbn [rename_attributes]. unfold rename_attribute.
    destruct (startswith k0 P) eqn:Hpre.
    + (* a reserved name: popped, and set under its local name *)
      pose proof (startswith_split _ _ Hpre) as Hsplit.
      set (x := List.skipn (length P) k0) in *.
      assert (dict_get orig k0 <> None) as Hk0orig.
      { destruct (orig_key_Some k0) as (v & ->); [|discriminate].
        apply Hincl. now left. }
      assert (~ prefixed P x) as Hx.
      { apply not_prefixed, clark_reserved. rewrite <- Hsplit.
        apply orig_clark, Hincl. now left. }
      assert (slice_from k0 (Z.of_nat (length P)) = x) as ->.
      { rewrite Hsplit. apply slice_from_app. }
      unfold dict_pop. rewrite (Hkeep k0 Hpre (or_introl eq_refl)).
      destruct (dict_get orig k0) as [v|] eqn:Hv; [|congruence].
      cbn [rbind]. apply IH; clear IH.
      * exact Hrest.
      * intros k Hin. apply Hincl. now right.
      * apply dict_set_NoDup, dict_del_NoDup, Hcur.
      * intros k Hk Hin.
        assert (k <> x) by (intros ->; tauto).
        assert (k <> k0) by (intros ->; tauto).
        rewrite dict_get_set_ne, dict_get_del_ne by assumption.
        apply Hkeep; [exact Hk|now right].
      * intros k Hk Hnin.
        assert (k <> x) by (intros ->; tauto).
        rewrite dict_get_set_ne by assumption.
        destruct (decide (k = k0)) as [->|Hne].
        -- now apply dict_get_del_eq.
        -- rewrite dict_get_del_ne by assumption.
           apply Hgone; [exact Hk|]. intros [?|?]; [congruence|tauto].
      * intros k v' Hk Hv' Hnin.
        rewrite dict_get_set. destruct (decide (k = x)) as [->|Hne].
        -- rewrite <- Hsplit in Hv'. congruence.
        -- assert (k <> k0) by (intros ->; tauto).
           rewrite dict_get_del_ne by assumption.
           apply Hmoved; [exact Hk|exact Hv'|].
           intros [Heq|?]; [|tauto]. rewrite Hsplit in Heq.
           apply List.app_inv_head in Heq. congruence.
      * intros k Hk Hor.
        assert (k <> x) as Hne.
        { intros ->. rewrite <- Hsplit in Hor. destruct Hor; [congruence|tauto]. }
        assert (k <> k0) by (intros ->; tauto).
        rewrite dict_get_set_ne, dict_get_del_ne by assumption.
        apply Hsame; [exact Hk|]. destruct Hor; [now left|right; now right].
    + (* any other name is passed over *)
      apply not_prefixed in Hpre. cbn [rbind]. apply IH; clear IH.
      * exact Hrest.
      * intros k Hin. apply Hincl. now right.
      * exact Hcur.
      * intros k Hk Hin. apply Hkeep; [exact Hk|now right].
      * intros k Hk Hnin. apply Hgone; [exact Hk|].
        intros [->|?]; tauto.
      * intros k v Hk Hv Hnin. apply (Hmoved k v Hk Hv).
        intros [Heq|?]; [|tauto]. apply Hpre. rewrite Heq.
        apply prefixed_app.
      * intros k Hk Hor. apply Hsame; [exact Hk|].
        destruct Hor; [now left|right; now right].
Qed.

(** The whole loop on the attributes of a node. *)
Lemma rename_attributes_node :
  exists final,
    rename_attributes orig (dict_keys orig) = Ok final /\
    (forall k, prefixed P k -> dict_get final k = None) /\
    (forall x v, dict_get orig (P ++ x) = Some v ->
                 dict_get final x = Some v) /\
    (forall k, ~ prefixed P k -> dict_get orig (P ++ k) = None ->
               dict_get final k = dict_get orig k).
Proof.
  destruct (rename_attributes_run (dict_keys orig) orig)
    as (final & Hrun & Hgone & Hmoved & Hsame).
  - exact orig_distinct.
  - auto.
  - exact orig_distinct.
  - reflexivity.
  - intros k _ Hnin. now apply dict_get_None.
  - intros k v _ Hv Hnin.
    apply (proj2 (dict_get_None orig (P ++ k))) in Hnin. congruence.
  - reflexivity.
  - exists final. split; [exact Hrun|]. split; [exact Hgone|].
    split; [|exact Hsame].
    intros x v Hv. apply Hmoved; [|exact Hv].
    apply not_prefixed, clark_reserved, orig_clark.
    apply dict_get_In in Hv. change (P ++ x) with (fst (P ++ x, v)).
    now apply List.in_map.
Qed.
End RenameAttributes.

(** Induction on a tree: a property that a node has whenever its children
    have it holds of every node. *)
Lemma element_tree_ind (Q : element -> Prop) :
  (forall e, List.Forall Q (children e) -> Q e) -> forall e, Q e.
Proof.
  intros Hnode. fix IH 1. intros e. apply Hnode.
  destruct e as [t a x cs]. simpl. clear t a x.
  induction cs as [|c cs IHcs]; constructor; [apply IH|exact IHcs].
Qed.

Lemma remove_namespace_element_eq (new_namespace : str) (e : element) :
  remove_namespace_element new_namespace e =
  let? tag' := remove_namespace_tag new_namespace (tag e) in
  let? attrib' := rename_attributes (attrib e) (dict_keys (attrib e)) in
  let? children' :=
    map_result (remove_namespace_element new_namespace) (children e) in
  Ok (Element tag' attrib' (text e) children').
Proof.
  destruct e as [t a x cs]. cbn [remove_namespace_element tag attrib text children].
  destruct (remove_namespace_tag new_namespace t) as [t'|]; [|reflexivity].
  cbn [rbind].
  destruct (rename_attributes a (dict_keys a)) as [a'|]; [|reflexivity].
  cbn [rbind]. f_equal.
  induction cs as [|c cs IHcs]; [reflexivity|].
  cbn [map_result]. rewrite <- IHcs. reflexivity.
Qed.

Lemma wf_element_eq (e : element) :
  wf_element e = wf_node e && List.forallb wf_element (children e).
Proof. destruct e; reflexivity. Qed.

Lemma remove_namespace_tag_run (uri name : str) :
  exists name',
    remove_namespace_tag (lit "{" ++ uri ++ lit "}") (Tag name) = Ok (Tag name') /\
    (forall x, name = lit "{" ++ uri ++ lit "}" ++ x -> name' = x) /\
    (~ prefixed (lit "{" ++ uri ++ lit "}") name -> name' = name).
Proof.
  unfold remove_namespace_tag.
  destruct (startswith name (lit "{" ++ uri ++ lit "}")) eqn:Hpre.
  - eexists. split; [reflexivity|]. split.
    + intros x ->.
      replace (lit "{" ++ uri ++ lit "}" ++ x)
        with ((lit "{" ++ uri ++ lit "}") ++ x)
        by (rewrite <- !List.app_assoc; reflexivity).
      apply slice_from_app.
    + intros Hn. unfold prefixed in Hn. congruence.
  - exists name. split; [reflexivity|]. split; [|reflexivity].
    intros x ->.
    replace (lit "{" ++ uri ++ lit "}" ++ x)
      with ((lit "{" ++ uri ++ lit "}") ++ x) in Hpre
      by (rewrite <- !List.app_assoc; reflexivity).
    rewrite startswith_app in Hpre. discriminate.
Qed.

(** The pass over a well-formed tree returns, and leaves every node as
    [node_as_rewritten] says. *)
Lemma remove_namespace_element_run (uri : str) (e : element) :
  wf_element e = true ->
  exists e',
    remove_namespace_element (lit "{" ++ uri ++ lit "}") e = Ok e' /\
    same_shape (node_as_rewritten uri) e e'.
Proof.
  induction e as [e IH] using element_tree_ind. intros Hwf.
  rewrite wf_element_eq in Hwf. apply andb_prop in Hwf as [Hnode Hkids].
  unfold wf_node in Hnode.
  apply andb_prop in Hnode as [Hnode Hclark].
  apply andb_prop in Hnode as [Htag Hdistinct].
  apply distinct_NoDup in Hdistinct.
  assert (forall k, List.In k (dict_keys (attrib e)) -> clark_name k = true)
    as Hclark' by (now apply List.forallb_forall).
  rewrite remove_namespace_element_eq.
  destruct (tag e) as [name|] eqn:Hname; [clear Htag|discriminate].
  destruct (remove_namespace_tag_run uri name)
    as (name' & -> & Hstrip & Hkeep).
  destruct (rename_attributes_node (attrib e) Hdistinct Hclark')
    as (a' & -> & Hgone & Hmoved & Hsame).
  cbn [rbind].
  assert (exists cs',
            map_result (remove_namespace_element (lit "{" ++ uri ++ lit "}"))
              (children e) = Ok cs' /\
            List.Forall2 (same_shape (node_as_rewritten uri)) (children e) cs')
    as (cs' & -> & Hcs).
  { clear - IH Hkids. induction IH as [|c cs Hc _ IHcs].
    - exists []. split; [reflexivity|constructor].
    - cbn [List.forallb] in Hkids. apply andb_prop in Hkids as [Hwfc Hwfcs].
      destruct (Hc Hwfc) as (c' & Hrun & Hshape).
      destruct (IHcs Hwfcs) as (cs' & Hruns & Hshapes).
      exists (c' :: cs'). cbn [map_result]. rewrite Hrun, Hruns.
      split; [reflexivity|now constructor]. }
  eexists. split; [reflexivity|].
  constructor; [|exact Hcs].
  unfold node_as_rewritten, tag_stripped, reserved_renamed.
  cbn [tag attrib text]. rewrite Hname.
  split; [reflexivity|]. split; [|split].
  - split.
    + intros x [= ->]. f_equal. now apply Hstrip.
    + intros name0 [= <-] Hn. f_equal. now apply Hkeep.
  - split; [exact Hmoved|exact Hgone].
  - intros k v Hv Hk Hnone. rewrite Hsame; assumption.
Qed.

(** C4, as the specification has it, fails on a node that carries both
    [xml:id] and a bare [id]: the bare attribute takes the value of the
    reserved one. *)
Lemma remove_namespace_overwrites_bare_id :
  wf_element (getroot Sample.doc_two_ids) = true /\
  ~ normalizes node_as_specified Sample.doc_two_ids (lit "urn:test").
Proof.
  split; [reflexivity|]. intros (doc' & Hrun & Hshape).
  vm_compute in Hrun. injection Hrun as <-.
  inversion Hshape as [? ? (_ & _ & _ & Hother) _]; subst.
  specialize (Hother (lit "id") (lit "x") eq_refl).
  assert (~ prefixed default_namespace (lit "id")) as Hbare
    by (apply not_prefixed; reflexivity).
  specialize (Hother Hbare). vm_compute in Hother. discriminate.
Qed.

(** C4, amended. On a tree of elements, [remove_namespace] for the
    namespace [uri] returns a tree of the same shape in which every tag
    [{uri}X] is [X] and every other tag is as it was; every attribute
    [{http://www.w3.org/XML/1998/namespace}X] is found under [X] with its
    value and no longer under its long name; and every other attribute has
    its value, unless a reserved attribute of the node has the same local
    name. *)
Theorem remove_namespace_rewrites (doc : ElementTree) (uri : str) :
  wf_element (getroot doc) = true ->
  normalizes node_as_rewritten doc uri.
Proof.
  intros Hwf. unfold normalizes, remove_namespace.
  destruct (remove_namespace_element_run uri (getroot doc) Hwf)
    as (root' & -> & Hshape).
  eexists. split; [reflexivity|exact Hshape].
Qed.

Lemma remove_namespace_rewrites_witness :
  wf_element (getroot Sample.doc_two_ids) = true /\
  normalizes node_as_rewritten Sample.doc_two_ids (lit "urn:test").
Proof.
  split; [reflexivity|].
  apply (remove_namespace_rewrites Sample.doc_two_ids (lit "urn:test")).
  reflexivity.
Defined.

(** ** Further properties of the lookups *)

(** X1. [get_phonetic_notation] never raises and leaves the state as it
    was; it answers [None] whenever [get] does, and otherwise the [zhuyin]
    field of the record that [get] returns, or [None] when the record has
    none. *)
Theorem get_phonetic_notation_of_get (cb_code : str) (st : state) :
  get_phonetic_notation cb_code st
  = (st, Ok match snd (get cb_code st) with
            | Ok (Some rec) =>
                match dict_get rec (lit "zhuyin") with
                | Some z => z
                | None => VNone
                end
            | _ => VNone
            end).
Proof.
  unfold get_phonetic_notation, get, dict_contains, bind, lift, ret,
    dict_getitem.
  destruct (dict_get (missing_dict st) cb_code) as [rec|]; [|reflexivity].
  simpl. destruct (dict_get rec (lit "zhuyin")); reflexivity.
Qed.

(** ** Further properties of the scans *)

(** X2. No call of [update_from_p5_file] returns normally, and none
    changes the table or the reverse index: a failure of the parser is
    raised again, and after a successful parse of a well-formed tree the
    call raises [AttributeError]. *)
Theorem update_from_p5_file_never_returns (w : world) (filename : str)
    (st : state) :
  (exists e, snd (update_from_p5_file w filename st) = Raise e) /\
  missing_dict (fst (update_from_p5_file w filename st)) = missing_dict st /\
  zzs_code (fst (update_from_p5_file w filename st)) = zzs_code st /\
  (forall doc, etree_parse w filename = inr doc ->
               wf_element (getroot doc) = true ->
               snd (update_from_p5_file w filename st) = Raise AttributeError).
Proof.
  unfold update_from_p5_file, parse_or_log, bind, logger.
  destruct (etree_parse w filename) as [e|doc] eqn:Hparse; simpl.
  - destruct (bool_decide (e = IOError)); simpl;
      (split; [eauto|]); (split; [reflexivity|]); (split; [reflexivity|]);
      intros; discriminate.
  - unfold lift.
    assert (exists ns, namespace_of doc = Ok ns) as (ns & Hns).
    { unfold namespace_of, dict_contains, dict_getitem.
      destruct (dict_get (nsmap doc) None); simpl; eauto. }
    rewrite Hns.
    destruct (remove_namespace doc ns) as [doc'|e] eqn:Hpass; simpl.
    + split; [eauto|]. split; [reflexivity|]. split; [reflexivity|].
      intros; reflexivity.
    + split; [eauto|]. split; [reflexivity|]. split; [reflexivity|].
      intros doc0 [= <-] Hwf. unfold remove_namespace in Hpass.
      destruct (remove_namespace_element_run ns (getroot doc) Hwf)
        as (root' & Hrun & _).
      rewrite Hrun in Hpass. discriminate.
Qed.

Lemma update_from_p5_file_never_returns_witness :
  snd (update_from_p5_file Sample.corpus (lit "corpus/a.xml") Sample.st_table)
  = Raise AttributeError.
Proof.
  apply (update_from_p5_file_never_returns
           Sample.corpus (lit "corpus/a.xml") Sample.st_table)
    with (doc := Sample.p5_doc); reflexivity.
Defined.

(** X3. [update_from_p5_folder] never scans a file nor changes the state:
    with room on the call stack it returns when [os.walk] yields nothing,
    and raises [TypeError] on the first triple otherwise. *)
Theorem update_from_p5_folder_outcome (depth : nat) (w : world)
    (folder : str) (st : state) :
  update_from_p5_folder (S depth) w folder st
  = (st, match os_walk w folder with
         | [] => Ok tt
         | _ :: _ => Raise TypeError
         end).
Proof.
  cbn [update_from_p5_folder]. destruct (os_walk w folder); reflexivity.
Qed.

(** X4. [__init__] never returns normally and sets nothing: a failure of
    [open] is raised, and when the file opens, [json.loads] raises
    [TypeError] on the file object, whatever the file holds. *)
Theorem init_never_returns (h : host) (st : state) :
  exists e,
    __init__ h st = (st, Raise e) /\
    (forall file_path content,
       os_path_join (module_path h) (PathStr (replace PATH_TO_DATA 47 os_sep))
         = Ok file_path ->
       open_file h file_path = inr content -> e = TypeError).
Proof.
  unfold __init__, bind, lift.
  destruct (os_path_join (module_path h) _) as [file_path|e] eqn:Hjoin.
  - destruct (open_file h file_path) as [e|content] eqn:Hopen.
    + exists e. split; [reflexivity|]. intros ? ? [= <-]. congruence.
    + exists TypeError. split; [reflexivity|]. reflexivity.
  - exists e. split; [reflexivity|]. intros; discriminate.
Qed.

(** ** Decoding the payload of a mapping *)

Lemma lstrip_In (c : Z) (s : str) :
  List.In c s -> is_space c = false -> List.In c (lstrip s).
Proof.
  induction s as [|d s IH]; simpl; [tauto|].
  intros [->|Hin] Hc.
  - rewrite Hc. now left.
  - destruct (is_space d); [auto|now right].
Qed.

Lemma strip_In (c : Z) (s : str) :
  List.In c s -> is_space c = false -> List.In c (strip s).
Proof.
  intros Hin Hc. unfold strip. apply List.in_rev. rewrite List.rev_involutive.
  apply lstrip_In; [|exact Hc]. apply List.in_rev. rewrite List.rev_involutive.
  now apply lstrip_In.
Qed.

Lemma int_sign_cases (body : str) :
  (exists r, body = 45 :: r /\ int_sign body = (-1, r)) \/
  (exists r, body = 43 :: r /\ int_sign body = (1, r)) \/
  ((forall r, body <> 45 :: r) /\ (forall r, body <> 43 :: r) /\
   int_sign body = (1, body)).
Proof.
  destruct body as [|b r].
  { right; right. repeat split; intros; discriminate. }
  destruct (Z.eq_dec b 45) as [->|H45]; [left; eauto|].
  destruct (Z.eq_dec b 43) as [->|H43]; [right; left; eauto|].
  right; right. split; [intros r' [= ? ?]; contradiction|].
  split; [intros r' [= ? ?]; contradiction|].
  destruct b as [|p|p]; try reflexivity.
  repeat (first [reflexivity | contradiction | destruct p as [p|p|]]).
Qed.

Lemma int_eq (s : str) :
  int s =
  match snd (int_sign (strip s)) with
  | [] => Raise ValueError
  | ds =>
      match digits ds false 0 with
      | Some n => Ok (fst (int_sign (strip s)) * n)
      | None => Raise ValueError
      end
  end.
Proof.
  unfold int. fold (int_sign (strip s)).
  destruct (int_sign (strip s)) as [sign [|d ds]]; reflexivity.
Qed.

Lemma digits_bad (c : Z) (s : str) :
  List.In c s -> is_digit c = false -> c <> 95 ->
  forall prev acc, digits s prev acc = None.
Proof.
  intros Hin Hd Hu. induction s as [|d s IH]; intros prev acc; [destruct Hin|].
  cbn [digits]. destruct Hin as [->|Hin].
  - rewrite Hd. apply Z.eqb_neq in Hu. rewrite Hu. reflexivity.
  - destruct (is_digit d); [now apply IH|].
    destruct ((d =? 95) && prev); [|reflexivity].
    destruct s as [|d' s]; [reflexivity|].
    destruct (is_digit d'); [now apply IH|reflexivity].
Qed.

Lemma hex_letter_facts (c : Z) :
  is_hex_letter c = true ->
  is_space c = false /\ is_digit c = false /\ c <> 95 /\ c <> 45 /\ c <> 43.
Proof.
  unfold is_hex_letter, is_space, is_digit. intros H.
  apply orb_prop in H as [H|H]; apply andb_prop in H as [H1 H2];
    apply Z.leb_le in H1, H2;
    repeat split; try lia;
    try (apply orb_false_iff; split); apply andb_false_iff; lia.
Qed.

(** [int] refuses every string with a letter among the hexadecimal
    digits. *)
Lemma int_hex_letter (s : str) (c : Z) :
  List.In c s -> is_hex_letter c = true -> int s = Raise ValueError.
Proof.
  intros Hin Hc.
  destruct (hex_letter_facts c Hc) as (Hsp & Hd & Hu & H45 & H43).
  pose proof (strip_In c s Hin Hsp) as Hbody. rewrite int_eq.
  assert (List.In c (snd (int_sign (strip s)))) as Hds.
  { destruct (int_sign_cases (strip s))
      as [(r & Hr & ->)|[(r & Hr & ->)|(_ & _ & ->)]]; simpl;
      try exact Hbody;
      rewrite Hr in Hbody; destruct Hbody as [Heq|Hin']; congruence. }
  destruct (snd (int_sign (strip s))) as [|d ds] eqn:Heq; [destruct Hds|].
  rewrite (digits_bad c (d :: ds) Hds Hd Hu). reflexivity.
Qed.





(** The loop body for a [unicode] mapping raises [ValueError], with nothing
    stored or logged, whenever the payload [text[2:-1]] holds one of the
    letters [A]-[F] or [a]-[f]: the code point is read in base 10. *)
Lemma extract_mapping_hex_letter (element0 : element) (res : record)
    (st : state) (t : str) (c : Z) :
  dict_get (attrib element0) (lit "type") = Some (lit "unicode") ->
  text element0 = Some t ->
  List.In c (slice t 2 (-1)) ->
  is_hex_letter c = true ->
  extract_mapping element0 res st = (st, Raise ValueError).
Proof.
  intros Hty Ht Hin Hc.
  unfold extract_mapping, bind, lift, dict_getitem, payload.
  rewrite Hty, Ht. cbn [str_in type_to_store List.existsb].
  rewrite (int_hex_letter _ c Hin Hc). reflexivity.
Qed.



(** A loop that ends normally has run its body to a normal end on every
    element. *)
Lemma for_each_Ok_each {A B} (body : A -> B -> M B) xs :
  forall acc st st' r,
    for_each xs acc body st = (st', Ok r) ->
    forall x, List.In x xs ->
              exists acc0 st0 st1 r1, body x acc0 st0 = (st1, Ok r1).
Proof.
  induction xs as [|y xs IH]; intros acc st st' r Hrun x Hin; [destruct Hin|].
  cbn [for_each] in Hrun. apply bind_Ok in Hrun as (acc' & st1 & Hy & Hrest).
  destruct Hin as [->|Hin]; [eauto 6|eauto].
Qed.

(** X5. [extract_char] returns no record for a node that has a [unicode]
    mapping with one of the letters [A]-[F], [a]-[f] in its payload
    [text[2:-1]]: in every record returned, the payloads of the [unicode]
    mappings of the node are free of them. *)
Theorem extract_char_no_hex_letter (char : element) (st st' : state)
    (res : record) (m : element) (t : str) (c : Z) :
  extract_char char st = (st', Ok res) ->
  List.In m (findall_child (lit "mapping") char) ->
  dict_get (attrib m) (lit "type") = Some (lit "unicode") ->
  text m = Some t ->
  List.In c (slice t 2 (-1)) ->
  is_hex_letter c = false.
Proof.
  intros Hrun Hm Hty Ht Hin.
  destruct (is_hex_letter c) eqn:Hc; [exfalso|reflexivity].
  unfold extract_char in Hrun.
  apply bind_Ok in Hrun as (char_id & st1 & _ & Hrun).
  apply bind_Ok in Hrun as (res1 & st2 & _ & Hrun).
  apply bind_Ok in Hrun as (res2 & st3 & Hmaps & _).
  destruct (for_each_Ok_each _ _ _ _ _ _ Hmaps m Hm)
    as (acc0 & st0 & st4 & r1 & Hbody).
  rewrite (extract_mapping_hex_letter m acc0 st0 t c Hty Ht Hin Hc) in Hbody.
  discriminate.
Qed.

Lemma extract_char_no_hex_letter_witness :
  is_hex_letter 55 = false.
Proof.
  apply (extract_char_no_hex_letter Fixture.char_decimal Sample.st0
           (logged Sample.st0
              [LogInfo (lit "Not handling charProp, char id=%s, key=%s, value=%s")
                 [AText (Some (lit "CB09731")); AText (Some (lit "note"));
                  AText (Some (lit "dropped"))]])
           [ (lit "big5", VStr (lit "B2")); (lit "normal", VStr (lit "x"));
             (lit "unicode", VStr (lit "9731"));
             (lit "unicode-char", VStr [9731]) ]
           (Sample.mapping (lit "unicode") (Some (lit "&#9731;")))
           (lit "&#9731;") 55).
  - reflexivity.
  - vm_compute. tauto.
  - reflexivity.
  - reflexivity.
  - vm_compute. tauto.
Defined.

(** ** What extraction reads and writes *)

Lemma logged_nil (st : state) : logged st [] = st.
Proof. destruct st. unfold logged. simpl. now rewrite List.app_nil_r. Qed.

Lemma logged_logged (st : state) (l1 l2 : list log_entry) :
  logged (logged st l1) l2 = logged st (l1 ++ l2).
Proof. unfold logged. simpl. now rewrite List.app_assoc. Qed.

Lemma only_logs_lift {A} (r : result A) : only_logs (lift r).
Proof. exists [], r. intros st. now rewrite logged_nil. Qed.

Lemma only_logs_ret {A} (a : A) : only_logs (ret a).
Proof. exact (only_logs_lift (Ok a)). Qed.

Lemma only_logs_logger (e : log_entry) : only_logs (logger e).
Proof. exists [e], (Ok tt). reflexivity. Qed.

Lemma only_logs_bind {A B} (m : M A) (k : A -> M B) :
  only_logs m -> (forall a, only_logs (k a)) -> only_logs (bind m k).
Proof.
  intros (l1 & r1 & Hm) Hk. destruct r1 as [a|e].
  - destruct (Hk a) as (l2 & r2 & Hka).
    exists (l1 ++ l2), r2. intros st. unfold bind.
    now rewrite Hm, Hka, logged_logged.
  - exists l1, (Raise e). intros st. unfold bind. now rewrite Hm.
Qed.

Lemma only_logs_for_each {A B} (body : A -> B -> M B) xs :
  (forall x acc, only_logs (body x acc)) ->
  forall acc, only_logs (for_each xs acc body).
Proof.
  intros Hbody. induction xs as [|x xs IH]; intros acc; cbn [for_each].
  - apply only_logs_ret.
  - apply only_logs_bind; [apply Hbody|exact IH].
Qed.

Lemma only_logs_extract_prop char_id e res :
  only_logs (extract_prop char_id e res).
Proof.
  unfold extract_prop.
  apply only_logs_bind; [apply only_logs_lift|intros local_name].
  apply only_logs_bind; [apply only_logs_lift|intros value0].
  destruct (field_of local_name); [apply only_logs_ret|].
  apply only_logs_bind; [apply only_logs_logger|intros _; apply only_logs_ret].
Qed.

Lemma only_logs_extract_mapping e res : only_logs (extract_mapping e res).
Proof.
  unfold extract_mapping.
  apply only_logs_bind; [apply only_logs_lift|intros mapping_type].
  destruct (str_in mapping_type type_to_store); [|apply only_logs_ret].
  apply only_logs_bind; [apply only_logs_lift|intros unicode].
  destruct (bool_decide (mapping_type = lit "unicode")); [|apply only_logs_ret].
  apply only_logs_bind; [apply only_logs_lift|intros n].
  apply only_logs_bind; [apply only_logs_lift|intros c].
  apply only_logs_ret.
Qed.

Lemma only_logs_extract_char (char : element) :
  only_logs (extract_char char).
Proof.
  unfold extract_char.
  apply only_logs_bind; [apply only_logs_lift|intros char_id].
  apply only_logs_bind.
  { apply only_logs_for_each. intros; apply only_logs_extract_prop. }
  intros res1. apply only_logs_bind.
  { apply only_logs_for_each. intros; apply only_logs_extract_mapping. }
  intros res2. apply only_logs_ret.
Qed.

(** X7. What [extract_char] returns or raises, and what it logs, depend on
    the node alone: it reads nothing of the table or the reverse index and
    leaves both as they were, and it keeps the log it finds, adding its own
    entries at the end. *)
Theorem extract_char_only_logs (char : element) :
  exists entries r,
    forall st, extract_char char st = (logged st entries, r).
Proof. exact (only_logs_extract_char char). Qed.

(** ** Storing a record *)

Lemma dict_set_set {K V} `{EqDecision K} (d : dict K V) k v v' :
  dict_set (dict_set d k v) k v' = dict_set d k v'.
Proof.
  induction d as [|[k0 v0] d IH]; simpl.
  - destruct (decide (k = k)); congruence.
  - destruct (decide (k = k0)) as [->|Hne]; simpl.
    + destruct (decide (k0 = k0)); congruence.
    + destruct (decide (k = k0)); [congruence|]. now rewrite IH.
Qed.

Lemma store_char_Ok (element0 : element) (st st' : state) :
  store_char element0 st = (st', Ok tt) ->
  exists entries rec key,
    (forall st0, extract_char element0 st0 = (logged st0 entries, Ok rec)) /\
    dict_get (attrib element0) (lit "id") = Some key /\
    st' = {| missing_dict := dict_set (missing_dict st) key rec;
             zzs_code := zzs_code st;
             log := log st ++ entries |}.
Proof.
  intros Hrun. destruct (only_logs_extract_char element0) as (entries & r & Hex).
  unfold store_char, bind in Hrun. rewrite Hex in Hrun.
  destruct r as [rec|e]; [|discriminate].
  unfold lift, dict_getitem in Hrun.
  destruct (dict_get (attrib element0) (lit "id")) as [key|] eqn:Hid;
    [|discriminate].
  unfold set_missing in Hrun. injection Hrun as <-.
  exists entries, rec, key. split; [exact Hex|]. split; reflexivity.
Qed.

Lemma get_run (cb_code : str) (st : state) :
  get cb_code st = (st, Ok (dict_get (missing_dict st) cb_code)).
Proof.
  unfold get, dict_contains, bind, lift, ret, dict_getitem.
  destruct (dict_get (missing_dict st) cb_code); reflexivity.
Qed.

(** X8. When the loop body of [update_from_p5_file] stores a node, [get]
    on the node's [id] then returns exactly the record that [extract_char]
    yields for the node, whatever was stored under that identifier before;
    every other identifier keeps its record, and the reverse index is not
    updated. *)
Theorem store_char_then_get (element0 : element) (st st' : state) :
  store_char element0 st = (st', Ok tt) ->
  exists rec key,
    dict_get (attrib element0) (lit "id") = Some key /\
    snd (extract_char element0 st) = Ok rec /\
    get key st' = (st', Ok (Some rec)) /\
    (forall k, k <> key ->
               dict_get (missing_dict st') k = dict_get (missing_dict st) k) /\
    zzs_code st' = zzs_code st.
Proof.
  intros Hrun.
  destruct (store_char_Ok element0 st st' Hrun)
    as (entries & rec & key & Hex & Hid & ->).
  exists rec, key. split; [exact Hid|]. split; [now rewrite Hex|].
  split; [|split; [|reflexivity]].
  - rewrite get_run. cbn [missing_dict]. now rewrite dict_get_set_eq.
  - intros k Hne. cbn [missing_dict]. now apply dict_get_set_ne.
Qed.

Lemma store_char_then_get_witness :
  exists rec key,
    dict_get (attrib Fixture.char_decimal) (lit "id") = Some key /\
    snd (extract_char Fixture.char_decimal Sample.st_table) = Ok rec /\
    rec = [ (lit "big5", VStr (lit "B2")); (lit "normal", VStr (lit "x"));
            (lit "unicode", VStr (lit "9731"));
            (lit "unicode-char", VStr [9731]) ].
Proof.
  destruct (store_char_then_get Fixture.char_decimal Sample.st_table
              (fst (store_char Fixture.char_decimal Sample.st_table)))
    as (rec & key & Hid & Hrec & _); [reflexivity|].
  exists rec, key. split; [exact Hid|]. split; [exact Hrec|].
  vm_compute in Hrec. injection Hrec as <-. reflexivity.
Defined.

(** X9. Storing the same node a second time succeeds and leaves the table
    as the first store left it. *)
Theorem store_char_twice (element0 : element) (st st1 : state) :
  store_char element0 st = (st1, Ok tt) ->
  exists st2,
    store_char element0 st1 = (st2, Ok tt) /\
    missing_dict st2 = missing_dict st1 /\
    zzs_code st2 = zzs_code st1.
Proof.
  intros Hrun.
  destruct (store_char_Ok element0 st st1 Hrun)
    as (entries & rec & key & Hex & Hid & ->).
  eexists. unfold store_char, bind, lift, dict_getitem, set_missing.
  rewrite Hex, Hid. split; [reflexivity|]. cbn [missing_dict zzs_code logged].
  split; [apply dict_set_set|reflexivity].
Qed.

Lemma store_char_twice_witness :
  exists st2,
    store_char Fixture.char_decimal
      (fst (store_char Fixture.char_decimal Sample.st_table)) = (st2, Ok tt) /\
    missing_dict st2
    = missing_dict (fst (store_char Fixture.char_decimal Sample.st_table)) /\
    zzs_code st2
    = zzs_code (fst (store_char Fixture.char_decimal Sample.st_table)).
Proof.
  apply (store_char_twice Fixture.char_decimal Sample.st_table). reflexivity.
Defined.

(** ** The fields of a record *)

Lemma for_each_app {A B} (body : A -> B -> M B) xs ys acc st :
  for_each (xs ++ ys) acc body st
  = bind (for_each xs acc body) (fun acc' => for_each ys acc' body) st.
Proof.
  revert acc st. induction xs as [|x xs IH]; intros acc st; [reflexivity|].
  cbn [List.app for_each]. unfold bind.
  destruct (body x acc st) as [st1 [acc1|e]]; [|reflexivity].
  rewrite IH. reflexivity.
Qed.

(** [for_each_inv] for a body that keeps the property on the elements of
    the list. *)
Lemma for_each_inv_In {A B} (P : B -> Prop) (body : A -> B -> M B) xs :
  (forall x acc st st' r,
     List.In x xs -> P acc -> body x acc st = (st', Ok r) -> P r) ->
  forall acc st st' r,
    P acc -> for_each xs acc body st = (st', Ok r) -> P r.
Proof.
  induction xs as [|x xs IH]; intros Hbody acc st st' r HP Hrun.
  - apply ret_Ok in Hrun as [-> _]. exact HP.
  - cbn [for_each] in Hrun. apply bind_Ok in Hrun as (acc' & st1 & Hx & Hrest).
    eapply IH; [|eapply Hbody; [now left|exact HP|exact Hx]|exact Hrest].
    intros y acc0 st0 st0' r0 Hin. apply Hbody. now right.
Qed.

Lemma extract_prop_Ok char_id e res st st' r :
  extract_prop char_id e res st = (st', Ok r) ->
  exists local_name value0,
    find_text (lit "localName") e = Ok local_name /\
    find_text (lit "value") e = Ok value0 /\
    r = match field_of local_name with
        | Some key => dict_set res key (of_text value0)
        | None => res
        end.
Proof.
  intros Hrun. unfold extract_prop in Hrun.
  apply bind_Ok in Hrun as (local_name & st1 & Hn & Hrun).
  apply bind_Ok in Hrun as (value0 & st2 & Hv & Hrun).
  apply lift_Ok in Hn as [Hn _]. apply lift_Ok in Hv as [Hv _].
  exists local_name, value0. split; [exact Hn|]. split; [exact Hv|].
  destruct (field_of local_name).
  - now apply ret_Ok in Hrun as [-> _].
  - apply bind_Ok in Hrun as (_ & st3 & _ & Hrun).
    now apply ret_Ok in Hrun as [-> _].
Qed.

(** A mapping never writes a field of [FIELD_MAPPING]. *)
Lemma extract_mapping_keeps e res st st' r key local_name :
  field_of local_name = Some key ->
  extract_mapping e res st = (st', Ok r) ->
  dict_get r key = dict_get res key.
Proof.
  intros Hkey Hrun.
  assert (key <> lit "normal_unicode" /\ key <> lit "unicode" /\
          key <> lit "unicode-char") as (H1 & H2 & H3).
  { destruct local_name as [n|]; [|discriminate]. unfold field_of in Hkey.
    apply dict_get_In in Hkey. unfold FIELD_MAPPING in Hkey.
    cbn [List.In] in Hkey.
    repeat (destruct Hkey as [[= _ <-]|Hkey];
            [repeat split; intros Heq; vm_compute in Heq; discriminate|]).
    destruct Hkey. }
  unfold extract_mapping in Hrun.
  apply bind_Ok in Hrun as (mapping_type & st1 & _ & Hrun).
  destruct (str_in mapping_type type_to_store) eqn:Hin.
  - apply str_in_In in Hin.
    assert (key <> mapping_type) as Hne
      by (destruct Hin as [<-|[<-|[]]]; assumption).
    apply bind_Ok in Hrun as (unicode & st2 & _ & Hrun).
    destruct (bool_decide (mapping_type = lit "unicode")).
    + apply bind_Ok in Hrun as (n & st3 & _ & Hrun).
      apply bind_Ok in Hrun as (c & st4 & _ & Hrun).
      apply ret_Ok in Hrun as [-> _].
      now rewrite !dict_get_set_ne.
    + apply ret_Ok in Hrun as [-> _]. now rewrite dict_get_set_ne.
  - now apply ret_Ok in Hrun as [-> _].
Qed.

(** X10. In a record that [extract_char] returns, a field of
    [FIELD_MAPPING] has the value of the last property of the node with
    that name: the properties after it do not change it, and no mapping
    does. *)
Theorem extract_char_last_property (char : element) (st st' : state)
    (res : record) (before after : list element) (p : element)
    (local_name value0 : option str) (key : str) :
  extract_char char st = (st', Ok res) ->
  findall_child (lit "charProp") char = before ++ p :: after ->
  find_text (lit "localName") p = Ok local_name ->
  find_text (lit "value") p = Ok value0 ->
  field_of local_name = Some key ->
  (forall q n, List.In q after ->
               find_text (lit "localName") q = Ok n ->
               field_of n <> Some key) ->
  dict_get res key = Some (of_text value0).
Proof.
  intros Hrun Hprops Hn Hv Hkey Hafter. unfold extract_char in Hrun.
  apply bind_Ok in Hrun as (char_id & st1 & _ & Hrun).
  apply bind_Ok in Hrun as (res1 & st2 & Hloop1 & Hrun).
  apply bind_Ok in Hrun as (res2 & st3 & Hloop2 & Hrun).
  apply ret_Ok in Hrun as [-> _].
  rewrite Hprops, for_each_app in Hloop1.
  apply bind_Ok in Hloop1 as (res0 & st4 & _ & Hloop1).
  cbn [for_each] in Hloop1.
  apply bind_Ok in Hloop1 as (resp & st5 & Hp & Hloop1).
  apply extract_prop_Ok in Hp as (n' & v' & Hn' & Hv' & ->).
  rewrite Hn in Hn'. injection Hn' as <-. rewrite Hv in Hv'. injection Hv' as <-.
  rewrite Hkey in Hloop1.
  assert (dict_get res1 key = Some (of_text value0)) as Hres1.
  { refine (for_each_inv_In (fun r => dict_get r key = Some (of_text value0))
              _ _ _ _ _ _ _ (dict_get_set_eq _ _ _) Hloop1).
    intros q acc s s' r Hq Hacc Hbody.
    apply extract_prop_Ok in Hbody as (n & v & Hqn & _ & ->).
    destruct (field_of n) as [key'|] eqn:Hkey'; [|exact Hacc].
    rewrite dict_get_set_ne; [exact Hacc|].
    intros ->. apply (Hafter q n Hq Hqn). exact Hkey'. }
  refine (for_each_inv (fun r => dict_get r key = Some (of_text value0))
            _ _ _ _ _ _ _ Hres1 Hloop2).
  intros m acc s s' r Hacc Hbody.
  now rewrite (extract_mapping_keeps _ _ _ _ _ _ _ Hkey Hbody).
Qed.

Lemma extract_char_last_property_witness :
  dict_get
    [ (lit "big5", VStr (lit "B2")); (lit "normal", VStr (lit "x"));
      (lit "unicode", VStr (lit "9731")); (lit "unicode-char", VStr [9731]) ]
    (lit "big5")
  = Some (of_text (Some (lit "B2"))).
Proof.
  apply (extract_char_last_property Fixture.char_decimal Sample.st0
           (fst (extract_char Fixture.char_decimal Sample.st0)) _
           [ Sample.charProp (Some (lit "big5")) (Some (lit "A1"));
             Sample.charProp (Some (lit "normalized form")) (Some (lit "x"));
             Sample.charProp (Some (lit "note")) (Some (lit "dropped")) ]
           []
           (Sample.charProp (Some (lit "big5")) (Some (lit "B2")))
           (Some (lit "big5")) (Some (lit "B2")) (lit "big5"));
    try reflexivity.
  intros q n [].
Defined.

(** ** Further properties of the reverse index *)

Lemma zzs_owner_None items z :
  (forall key rec, List.In (key, rec) items ->
                   dict_get rec (lit "zzs") <> Some z) ->
  zzs_owner items z = None.
Proof.
  intros Hnone. destruct (zzs_owner items z) as [key|] eqn:Hown; [|reflexivity].
  apply zzs_owner_Some in Hown as (rec & Hin & Hz).
  now destruct (Hnone key rec Hin).
Qed.

Lemma zzs_owner_last before key rec after z :
  dict_get rec (lit "zzs") = Some z ->
  (forall key' rec', List.In (key', rec') after ->
                     dict_get rec' (lit "zzs") <> Some z) ->
  zzs_owner (before ++ (key, rec) :: after) z = Some key.
Proof.
  intros Hz Hafter. induction before as [|[key0 rec0] before IH].
  - cbn [List.app zzs_owner]. rewrite (zzs_owner_None after z Hafter).
    destruct (decide (dict_get rec (lit "zzs") = Some z)); congruence.
  - cbn [List.app zzs_owner]. now rewrite IH.
Qed.

(** X11. When every composition of the table can be a key,
    [create_zzs_code_lookup] returns and changes the reverse index only:
    under a composition it leaves the identifier of the last record of
    the table that has it, and an entry already in the index under a
    composition that no record has stays as it was. *)
Theorem create_zzs_code_lookup_last_wins (st : state) :
  (forall key rec z,
     List.In (key, rec) (missing_dict st) ->
     dict_get rec (lit "zzs") = Some z -> hashable z = true) ->
  exists idx,
    create_zzs_code_lookup st = (with_zzs_code st idx, Ok tt) /\
    (forall before key rec after z,
       missing_dict st = before ++ (key, rec) :: after ->
       dict_get rec (lit "zzs") = Some z ->
       (forall key' rec', List.In (key', rec') after ->
                          dict_get rec' (lit "zzs") <> Some z) ->
       dict_get idx z = Some key) /\
    (forall z,
       (forall key rec, List.In (key, rec) (missing_dict st) ->
                        dict_get rec (lit "zzs") <> Some z) ->
       dict_get idx z = dict_get (zzs_code st) z).
Proof.
  intros Hhash.
  destruct (zzs_loop_run (missing_dict st) st Hhash) as (idx & Hrun & Hidx).
  exists idx. split; [exact Hrun|]. split.
  - intros before key rec after z Htable Hz Hafter.
    rewrite Hidx.
    replace (zzs_owner (missing_dict st) z) with (Some key); [reflexivity|].
    symmetry. rewrite Htable. now apply zzs_owner_last.
  - intros z Hnone. rewrite Hidx. now rewrite (zzs_owner_None _ z Hnone).
Qed.

Lemma create_zzs_code_lookup_last_wins_witness :
  exists idx,
    create_zzs_code_lookup Fixture.st_shared
    = (with_zzs_code Fixture.st_shared idx, Ok tt) /\
    dict_get idx (VStr (lit "[a*b]")) = Some (lit "CB00003") /\
    dict_get idx (VStr (lit "[old]")) = Some (lit "CB00000").
Proof.
  destruct (create_zzs_code_lookup_last_wins Fixture.st_shared)
    as (idx & Hrun & Hlast & Hstale).
  - intros key rec z Hin Hz.
    cbn [Fixture.st_shared missing_dict List.In] in Hin.
    destruct Hin as [Hin|[Hin|[Hin|[]]]]; injection Hin as <- <-;
      vm_compute in Hz; try discriminate Hz; injection Hz as <-; reflexivity.
  - exists idx. split; [exact Hrun|]. split.
    + apply (Hlast [ (lit "CB00001", [(lit "zzs", VStr (lit "[a*b]"))]);
                     (lit "CB00002", [(lit "normal", VStr (lit "x"))]) ]
               (lit "CB00003") [(lit "zzs", VStr (lit "[a*b]"))] []);
        [reflexivity|reflexivity|intros ? ? []].
    + rewrite Hstale; [reflexivity|].
      intros key rec Hin Hz.
      cbn [Fixture.st_shared missing_dict List.In] in Hin.
      destruct Hin as [Hin|[Hin|[Hin|[]]]]; injection Hin as <- <-;
        vm_compute in Hz; discriminate Hz.
Defined.

Lemma zzs_loop_unhashable items :
  (exists key rec z, List.In (key, rec) items /\
                     dict_get rec (lit "zzs") = Some z /\ hashable z = false) ->
  forall st,
    exists idx,
      for_each items tt (fun item _ => zzs_entry item) st
      = (with_zzs_code st idx, Raise TypeError).
Proof.
  induction items as [|[key0 rec0] items IH];
    intros (key & rec & z & Hin & Hz & Hbad) st; [destruct Hin|].
  simpl. unfold bind, zzs_entry, dict_contains, lift, dict_getitem.
  destruct (dict_get rec0 (lit "zzs")) as [z0|] eqn:Hz0.
  - destruct (hashable z0) eqn:Hz0h.
    + unfold set_zzs.
      destruct (IH) with (st := with_zzs_code st (dict_set (zzs_code st) z0 key0))
        as (idx & Hrun).
      { destruct Hin as [Heq|Hin]; [|eauto 6].
        injection Heq as -> ->. congruence. }
      exists idx. exact Hrun.
    + exists (zzs_code st). destruct st; reflexivity.
  - destruct (IH) with (st := st) as (idx & Hrun).
    { destruct Hin as [Heq|Hin]; [|eauto 6].
      injection Heq as -> ->. congruence. }
    exists idx. exact Hrun.
Qed.

(** X12. When some record of the table has a list as its composition,
    [create_zzs_code_lookup] raises [TypeError]; the table and the log are
    as before. *)
Theorem create_zzs_code_lookup_unhashable (st : state) (key : str)
    (rec : record) (z : value) :
  List.In (key, rec) (missing_dict st) ->
  dict_get rec (lit "zzs") = Some z ->
  hashable z = false ->
  exists idx,
    create_zzs_code_lookup st = (with_zzs_code st idx, Raise TypeError).
Proof.
  intros Hin Hz Hbad. apply zzs_loop_unhashable. eauto 6.
Qed.

Lemma create_zzs_code_lookup_unhashable_witness :
  exists idx,
    create_zzs_code_lookup Fixture.st_unhashable
    = (with_zzs_code Fixture.st_unhashable idx, Raise TypeError).
Proof.
  apply (create_zzs_code_lookup_unhashable Fixture.st_unhashable
           (lit "CB00002") [(lit "zzs", VList [lit "a"; lit "b"])]
           (VList [lit "a"; lit "b"])).
  - right. left. reflexivity.
  - reflexivity.
  - reflexivity.
Defined.

Lemma dict_keys_set_present {K V} `{EqDecision K} (d : dict K V) k v :
  List.In k (dict_keys d) -> dict_keys (dict_set d k v) = dict_keys d.
Proof.
  induction d as [|[k0 v0] d IH]; simpl; [tauto|].
  intros Hin. destruct (decide (k = k0)) as [->|Hne]; simpl; [reflexivity|].
  f_equal. apply IH. destruct Hin; [congruence|assumption].
Qed.

(** Two dictionaries with the same keys in the same order and the same
    answers are the same. *)
Lemma dict_ext {K V} `{EqDecision K} (d1 d2 : dict K V) :
  List.NoDup (dict_keys d1) ->
  dict_keys d1 = dict_keys d2 ->
  (forall k, dict_get d1 k = dict_get d2 k) ->
  d1 = d2.
Proof.
  revert d2. induction d1 as [|[k1 v1] d1 IH]; intros [|[k2 v2] d2];
    simpl; intros Hnd Hkeys Hget; try discriminate; [reflexivity|].
  injection Hkeys as <- Hkeys.
  inversion Hnd as [|? ? Hnotin Hnd']; subst.
  pose proof (Hget k1) as Hk1.
  destruct (decide (k1 = k1)); [|congruence]. injection Hk1 as <-.
  f_equal. apply IH; [exact Hnd'|exact Hkeys|].
  intros k. specialize (Hget k).
  destruct (decide (k = k1)) as [->|Hne]; [|exact Hget].
  transitivity (@None V); [|symmetry].
  - now apply dict_get_None.
  - apply dict_get_None. now rewrite <- Hkeys.
Qed.

Lemma zzs_entry_cases key rec st st' r :
  zzs_entry (key, rec) st = (st', r) ->
  st' = st \/
  exists z, dict_get rec (lit "zzs") = Some z /\
            st' = with_zzs_code st (dict_set (zzs_code st) z key).
Proof.
  unfold zzs_entry, dict_contains, bind, lift, dict_getitem.
  destruct (dict_get rec (lit "zzs")) as [z|].
  - destruct (hashable z).
    + unfold set_zzs. intros [= <- _]. right. eauto.
    + intros [= <- _]. now left.
  - intros [= <- _]. now left.
Qed.

(** The loop keeps the keys of an index distinct, and adds none when every
    composition of the table is a key already. *)
Lemma zzs_loop_keys items :
  forall st st' r,
    for_each items tt (fun item _ => zzs_entry item) st = (st', r) ->
    List.NoDup (dict_keys (zzs_code st)) ->
    List.NoDup (dict_keys (zzs_code st')) /\
    ((forall key rec z, List.In (key, rec) items ->
                        dict_get rec (lit "zzs") = Some z ->
                        List.In z (dict_keys (zzs_code st))) ->
     dict_keys (zzs_code st') = dict_keys (zzs_code st)).
Proof.
  induction items as [|[key rec] items IH]; intros st st' r Hrun Hnd.
  - injection Hrun as <- _. auto.
  - cbn [for_each] in Hrun. unfold bind in Hrun.
    destruct (zzs_entry (key, rec) st) as [st1 [[]|e]] eqn:Hentry.
    + apply zzs_entry_cases in Hentry as [->|(z & Hz & ->)].
      * destruct (IH st st' r Hrun Hnd) as [Hnd' Hkeys].
        split; [exact Hnd'|]. intros Hin. apply Hkeys.
        intros key' rec' z' Hin'. apply (Hin key' rec' z'). now right.
      * destruct (IH _ st' r Hrun) as [Hnd' Hkeys].
        { cbn [with_zzs_code zzs_code]. now apply dict_set_NoDup. }
        split; [exact Hnd'|]. intros Hin.
        assert (dict_keys (dict_set (zzs_code st) z key)
                = dict_keys (zzs_code st)) as Hsame.
        { apply dict_keys_set_present. apply (Hin key rec z); [now left|exact Hz]. }
        cbn [with_zzs_code zzs_code] in Hkeys. rewrite <- Hsame.
        apply Hkeys. intros key' rec' z' Hin' Hz'. rewrite Hsame.
        apply (Hin key' rec' z'); [now right|exact Hz'].
    + injection Hrun as <- _.
      apply zzs_entry_cases in Hentry as [->|(z & Hz & ->)]; [auto|].
      split; [cbn [with_zzs_code zzs_code]; now apply dict_set_NoDup|].
      intros Hin. cbn [with_zzs_code zzs_code].
      apply dict_keys_set_present. apply (Hin key rec z); [now left|exact Hz].
Qed.

(** X13. Building the reverse index a second time changes nothing: after a
    call of [create_zzs_code_lookup] that returned, another call returns
    with the same state. *)
Theorem create_zzs_code_lookup_idempotent (st st1 : state) :
  List.NoDup (dict_keys (zzs_code st)) ->
  create_zzs_code_lookup st = (st1, Ok tt) ->
  create_zzs_code_lookup st1 = (st1, Ok tt).
Proof.
  intros Hnd Hrun.
  assert (forall key rec z, List.In (key, rec) (missing_dict st) ->
            dict_get rec (lit "zzs") = Some z -> hashable z = true) as Hhash.
  { intros key rec z Hin Hz. destruct (hashable z) eqn:Hh; [reflexivity|].
    destruct (zzs_loop_unhashable (missing_dict st) (ex_intro _ key (ex_intro _ rec (ex_intro _ z (conj Hin (conj Hz Hh))))) st)
      as (idx & Hbad).
    unfold create_zzs_code_lookup in Hrun.
    pose proof (eq_trans (eq_sym Hrun) Hbad) as Heq. discriminate Heq. }
  destruct (zzs_loop_run (missing_dict st) st Hhash) as (idx1 & Hrun1 & Hidx1).
  unfold create_zzs_code_lookup in Hrun.
  pose proof (eq_trans (eq_sym Hrun1) Hrun) as Heq. injection Heq as <-.
  clear Hrun.
  destruct (zzs_loop_keys _ _ _ _ Hrun1 Hnd) as [Hnd1 _].
  destruct (zzs_loop_run (missing_dict st) (with_zzs_code st idx1) Hhash)
    as (idx2 & Hrun2 & Hidx2).
  unfold create_zzs_code_lookup. cbn [with_zzs_code missing_dict] in *.
  etransitivity; [exact Hrun2|].
  f_equal. unfold with_zzs_code. cbn. f_equal.
  destruct (zzs_loop_keys _ _ _ _ Hrun2 Hnd1) as [_ Hkeys].
  cbn [with_zzs_code zzs_code] in Hkeys, Hidx2.
  symmetry. apply dict_ext; [exact Hnd1| |].
  - symmetry. apply Hkeys. intros key rec z Hin Hz.
    destruct (zzs_owner_In _ key rec z Hin Hz) as (key' & Hown).
    specialize (Hidx1 z). rewrite Hown in Hidx1.
    destruct (List.in_dec (fun a b => decide (a = b)) z (dict_keys idx1))
      as [Hyes|Hno]; [exact Hyes|].
    apply dict_get_None in Hno. congruence.
  - intros z. rewrite Hidx2, (Hidx1 z).
    destruct (zzs_owner (missing_dict st) z); reflexivity.
Qed.

Lemma create_zzs_code_lookup_idempotent_witness :
  create_zzs_code_lookup (fst (create_zzs_code_lookup Fixture.st_shared))
  = (fst (create_zzs_code_lookup Fixture.st_shared), Ok tt).
Proof.
  apply (create_zzs_code_lookup_idempotent Fixture.st_shared).
  - repeat constructor. simpl. tauto.
  - reflexivity.
Defined.

(** ** Further properties of the namespace normalizer *)

Lemma every_node_eq (q : element -> bool) (e : element) :
  every_node q e = q e && List.forallb (every_node q) (children e).
Proof. destruct e; reflexivity. Qed.

Lemma some_node_eq (q : element -> bool) (e : element) :
  some_node q e = q e || List.existsb (some_node q) (children e).
Proof. destruct e; reflexivity. Qed.

Lemma wf_element_every (e : element) : wf_element e = every_node wf_node e.
Proof.
  induction e as [e IH] using element_tree_ind.
  rewrite wf_element_eq, every_node_eq. f_equal.
  induction IH as [|c cs Hc _ IHcs]; [reflexivity|].
  cbn [List.forallb]. now rewrite Hc, IHcs.
Qed.

Lemma every_node_and (q1 q2 : element -> bool) (e : element) :
  every_node q1 e = true -> every_node q2 e = true ->
  every_node (fun x => q1 x && q2 x) e = true.
Proof.
  induction e as [e IH] using element_tree_ind.
  rewrite !every_node_eq. intros H1 H2.
  apply andb_prop in H1 as [H1 Hk1]. apply andb_prop in H2 as [H2 Hk2].
  rewrite H1, H2. cbn [andb].
  induction IH as [|c cs Hc _ IHcs]; [reflexivity|].
  cbn [List.forallb] in *.
  apply andb_prop in Hk1 as [Hc1 Hk1]. apply andb_prop in Hk2 as [Hc2 Hk2].
  rewrite (Hc Hc1 Hc2). now apply IHcs.
Qed.

(** What the node relation gives on every node of the first tree holds on
    every node of the second. *)
Lemma same_shape_every (q q' : element -> bool)
    (R : element -> element -> Prop) :
  (forall e e', q e = true -> R e e' -> q' e' = true) ->
  forall e e',
    every_node q e = true -> same_shape R e e' -> every_node q' e' = true.
Proof.
  intros Hnode. induction e as [e IH] using element_tree_ind.
  intros e' Hq Hshape. inversion Hshape as [? ? HR Hkids]; subst.
  rewrite every_node_eq in Hq |- *. apply andb_prop in Hq as [Hqe Hqk].
  rewrite (Hnode e e' Hqe HR). cbn [andb].
  revert Hqk IH. induction Hkids as [|c c' cs cs' Hc _ IHcs];
    intros Hqk IH; [reflexivity|].
  cbn [List.forallb] in *. apply andb_prop in Hqk as [Hqc Hqk].
  inversion IH as [|? ? IHc IHrest]; subst.
  rewrite (IHc c' Hqc Hc). now apply IHcs.
Qed.

Lemma same_shape_mono (q : element -> bool)
    (R R' : element -> element -> Prop) :
  (forall e e', q e = true -> R e e' -> R' e e') ->
  forall e e',
    every_node q e = true -> same_shape R e e' -> same_shape R' e e'.
Proof.
  intros Hnode. induction e as [e IH] using element_tree_ind.
  intros e' Hq Hshape. inversion Hshape as [? ? HR Hkids]; subst.
  rewrite every_node_eq in Hq. apply andb_prop in Hq as [Hqe Hqk].
  constructor; [now apply Hnode|].
  revert Hqk IH. induction Hkids as [|c c' cs cs' Hc _ IHcs];
    intros Hqk IH; [constructor|].
  cbn [List.forallb] in Hqk. apply andb_prop in Hqk as [Hqc Hqk].
  inversion IH as [|? ? IHc IHrest]; subst.
  constructor; [now apply IHc|now apply IHcs].
Qed.

(** The loop over the names leaves the attributes alone when no name is
    reserved. *)
Lemma rename_attributes_none (a : dict str str) (names : list str) :
  List.forallb (fun k => negb (startswith k default_namespace)) names = true ->
  rename_attributes a names = Ok a.
Proof.
  induction names as [|k names IH]; [reflexivity|].
  cbn [List.forallb rename_attributes]. intros H.
  apply andb_prop in H as [Hk Hrest]. apply negb_true_iff in Hk.
  unfold rename_attribute. rewrite Hk. cbn [rbind]. now apply IH.
Qed.

Lemma remove_namespace_element_settled (p : str) (e : element) :
  every_node (settled p) e = true -> remove_namespace_element p e = Ok e.
Proof.
  induction e as [e IH] using element_tree_ind. intros Hall.
  rewrite every_node_eq in Hall. apply andb_prop in Hall as [Hnode Hkids].
  unfold settled in Hnode. apply andb_prop in Hnode as [Htag Hattrs].
  rewrite remove_namespace_element_eq.
  destruct (tag e) as [name|] eqn:Hname; [|discriminate].
  apply negb_true_iff in Htag. cbn [remove_namespace_tag]. rewrite Htag.
  cbn [rbind]. rewrite (rename_attributes_none _ _ Hattrs). cbn [rbind].
  assert (map_result (remove_namespace_element p) (children e)
          = Ok (children e)) as ->.
  { clear - IH Hkids. induction IH as [|c cs Hc _ IHcs]; [reflexivity|].
    cbn [List.forallb] in Hkids. apply andb_prop in Hkids as [Hc' Hcs'].
    cbn [map_result]. rewrite (Hc Hc'), (IHcs Hcs'). reflexivity. }
  cbn [rbind]. rewrite <- Hname. destruct e; reflexivity.
Qed.

(** X14. [remove_namespace] returns a tree as it is when no tag of it
    starts with the prefix [{namespace}] and no attribute name with the
    reserved prefix. *)
Theorem remove_namespace_settled (doc : ElementTree) (namespace : str) :
  every_node (settled (lit "{" ++ namespace ++ lit "}")) (getroot doc) = true ->
  remove_namespace doc namespace = Ok doc.
Proof.
  intros Hall. unfold remove_namespace.
  rewrite (remove_namespace_element_settled _ _ Hall). cbn [rbind].
  destruct doc; reflexivity.
Qed.

Lemma remove_namespace_settled_witness :
  remove_namespace Fixture.doc_plain (lit "urn:test") = Ok Fixture.doc_plain.
Proof.
  apply (remove_namespace_settled Fixture.doc_plain (lit "urn:test")).
  reflexivity.
Defined.

Lemma after_brace_suffix (a x l : str) :
  after_brace (a ++ 125 :: x) = Some l -> exists pre, l = pre ++ x.
Proof.
  induction a as [|c a IH]; cbn [List.app after_brace].
  - rewrite Z.eqb_refl. intros [= <-]. now exists [].
  - destruct (c =? 125); [|exact IH].
    intros [= <-]. exists (a ++ [125]). now rewrite <- List.app_assoc.
Qed.

Lemma no_brace_app (pre x : str) :
  no_brace (pre ++ x) = true -> no_brace pre = true /\ no_brace x = true.
Proof. unfold no_brace. rewrite List.forallb_app. apply andb_prop. Qed.

Lemma no_brace_not_prefixed (x p : str) :
  no_brace x = true -> startswith x (123 :: p) = false.
Proof.
  destruct x as [|c x]; [reflexivity|]. cbn [no_brace List.forallb startswith].
  intros H. apply andb_prop in H as [Hc _]. apply andb_prop in Hc as [Hc _].
  apply negb_true_iff in Hc. now rewrite Z.eqb_sym, Hc.
Qed.

(** What follows the namespace in a Clark name has no brace. *)
Lemma clark_local (uri x : str) :
  clark_name ((lit "{" ++ uri ++ lit "}") ++ x) = true -> no_brace x = true.
Proof.
  change ((lit "{" ++ uri ++ lit "}") ++ x)
    with (123 :: ((uri ++ [125]) ++ x)).
  rewrite <- List.app_assoc. cbn [List.app clark_name after_brace].
  change (123 =? 125) with false. cbv iota.
  destruct (after_brace (uri ++ 125 :: x)) as [l|] eqn:Hl; [|discriminate].
  apply after_brace_suffix in Hl as (pre & ->).
  intros H. now apply no_brace_app in H.
Qed.

(** No Clark name starts with a doubly braced namespace. *)
Lemma clark_not_double (uri name : str) :
  clark_name name = true ->
  startswith name (lit "{" ++ (lit "{" ++ uri ++ lit "}") ++ lit "}") = false.
Proof.
  intros Hclark.
  destruct (startswith name _) eqn:Hpre; [exfalso|reflexivity].
  apply startswith_split in Hpre.
  set (rest := List.skipn _ name) in Hpre. rewrite Hpre in Hclark.
  change ((lit "{" ++ (lit "{" ++ uri ++ lit "}") ++ lit "}") ++ rest)
    with (123 :: (((123 :: uri) ++ [125]) ++ [125]) ++ rest) in Hclark.
  rewrite <- !List.app_assoc in Hclark.
  cbn [List.app clark_name after_brace] in Hclark.
  change (123 =? 125) with false in Hclark. cbv iota in Hclark.
  destruct (after_brace (uri ++ 125 :: 125 :: rest)) as [l|] eqn:Hl;
    [|discriminate].
  apply after_brace_suffix in Hl as (pre & ->).
  apply no_brace_app in Hclark as [_ Hclark]. discriminate.
Qed.

(** A well-formed node with a Clark tag is settled after the pass. *)
Lemma node_as_rewritten_settled (uri : str) (e e' : element) :
  wf_node e && tag_clark e = true ->
  node_as_rewritten uri e e' ->
  settled (lit "{" ++ uri ++ lit "}") e' = true.
Proof.
  intros Hq (_ & [Hstrip Hkeep] & [_ Hgone] & _).
  apply andb_prop in Hq as [_ Hclark]. unfold tag_clark in Hclark.
  destruct (tag e) as [name|] eqn:Hname; [|discriminate].
  unfold settled. apply andb_true_intro. split.
  - destruct (startswith name (lit "{" ++ uri ++ lit "}")) eqn:Hpre.
    + pose proof (startswith_split _ _ Hpre) as Hsplit.
      set (x := List.skipn _ name) in Hsplit.
      rewrite (Hstrip x).
      * rewrite Hsplit in Hclark. apply clark_local in Hclark.
        apply negb_true_iff. now apply no_brace_not_prefixed.
      * f_equal. rewrite Hsplit at 1. now rewrite <- !List.app_assoc.
    + rewrite (Hkeep name eq_refl); [now rewrite Hpre|].
      now apply not_prefixed.
  - apply List.forallb_forall. intros k Hin. apply negb_true_iff.
    destruct (startswith k default_namespace) eqn:Hk; [exfalso|reflexivity].
    specialize (Hgone k Hk). apply dict_get_None in Hgone. contradiction.
Qed.

(** X15. On a tree of elements whose tags and attribute names are Clark
    names, [remove_namespace] is idempotent: a second pass for the same
    namespace returns the tree the first pass returned. *)
Theorem remove_namespace_idempotent (doc doc' : ElementTree) (uri : str) :
  wf_element (getroot doc) = true ->
  every_node tag_clark (getroot doc) = true ->
  remove_namespace doc uri = Ok doc' ->
  remove_namespace doc' uri = Ok doc'.
Proof.
  intros Hwf Hclark Hrun. unfold remove_namespace in Hrun |- *.
  destruct (remove_namespace_element_run uri (getroot doc) Hwf)
    as (root' & Hroot & Hshape).
  rewrite Hroot in Hrun. injection Hrun as <-. cbn [getroot nsmap rbind].
  rewrite remove_namespace_element_settled; [reflexivity|].
  rewrite wf_element_every in Hwf.
  apply (same_shape_every (fun x => wf_node x && tag_clark x) _
           (node_as_rewritten uri) (node_as_rewritten_settled uri)
           (getroot doc) root');
    [now apply every_node_and|exact Hshape].
Qed.

Lemma remove_namespace_idempotent_witness :
  remove_namespace Fixture.doc_ns (lit "urn:test") = Ok Fixture.doc_plain /\
  remove_namespace Fixture.doc_plain (lit "urn:test") = Ok Fixture.doc_plain.
Proof.
  split; [reflexivity|].
  apply (remove_namespace_idempotent Fixture.doc_ns Fixture.doc_plain
           (lit "urn:test")); reflexivity.
Defined.

(** ** The normalizer as the scan calls it *)

Lemma namespace_of_default (doc : ElementTree) (uri : str) :
  dict_get (nsmap doc) None = Some uri ->
  namespace_of doc = Ok (lit "{" ++ uri ++ lit "}").
Proof.
  intros Hns. unfold namespace_of, dict_contains, dict_getitem.
  now rewrite Hns.
Qed.

Lemma remove_namespace_run (doc : ElementTree) (uri : str) :
  wf_element (getroot doc) = true ->
  exists doc',
    remove_namespace doc uri = Ok doc' /\
    same_shape (node_as_rewritten uri) (getroot doc) (getroot doc').
Proof.
  intros Hwf. unfold remove_namespace.
  destruct (remove_namespace_element_run uri (getroot doc) Hwf)
    as (root' & -> & Hshape).
  eexists. split; [reflexivity|exact Hshape].
Qed.

Lemma scan_pass_run (doc : ElementTree) (uri : str) :
  dict_get (nsmap doc) None = Some uri ->
  wf_element (getroot doc) = true ->
  every_node tag_clark (getroot doc) = true ->
  exists doc',
    (let? namespace := namespace_of doc in remove_namespace doc namespace)
    = Ok doc' /\
    same_shape (fun e e' => tag e' = tag e) (getroot doc) (getroot doc').
Proof.
  intros Hns Hwf Hclark. rewrite (namespace_of_default doc uri Hns).
  cbn [rbind].
  destruct (remove_namespace_run doc (lit "{" ++ uri ++ lit "}") Hwf)
    as (doc' & Hrun & Hshape).
  exists doc'. split; [exact Hrun|].
  refine (same_shape_mono tag_clark _ _ _ _ _ Hclark Hshape).
  intros e e' He (_ & [_ Hkeep] & _).
  unfold tag_clark in He. destruct (tag e) as [name|] eqn:Hname; [|discriminate].
  apply (Hkeep name eq_refl). apply not_prefixed.
  now apply clark_not_double.
Qed.

(** X16. For a document that declares a default namespace,
    [update_from_p5_file] hands the normalizer the namespace already in
    braces, and the pass, looking for [{{uri}}], strips no tag: on a tree
    of elements with Clark names, every tag is after the pass what it was
    before. *)
Theorem scan_pass_strips_no_tag (doc : ElementTree) (uri : str) :
  dict_get (nsmap doc) None = Some uri ->
  wf_element (getroot doc) = true ->
  every_node tag_clark (getroot doc) = true ->
  exists doc',
    (let? namespace := namespace_of doc in remove_namespace doc namespace)
    = Ok doc' /\
    same_shape (fun e e' => tag e' = tag e) (getroot doc) (getroot doc').
Proof.
  exact (scan_pass_run doc uri).
Qed.

Lemma scan_pass_strips_no_tag_witness :
  exists doc',
    (let? namespace := namespace_of Fixture.doc_ns in
     remove_namespace Fixture.doc_ns namespace) = Ok doc' /\
    same_shape (fun e e' => tag e' = tag e)
      (getroot Fixture.doc_ns) (getroot doc').
Proof.
  apply (scan_pass_strips_no_tag Fixture.doc_ns (lit "urn:test"));
    reflexivity.
Defined.

Lemma iterdescendants_eq (e : element) :
  iterdescendants e = List.flat_map iter (children e).
Proof.
  destruct e as [t a x cs]. cbn [iterdescendants children].
  induction cs as [|c cs IH]; [reflexivity|].
  cbn [List.flat_map]. unfold iter at 1. cbn [List.app]. now rewrite IH.
Qed.

Lemma every_node_iter (q : element -> bool) (e : element) :
  every_node q e = true -> List.Forall (fun x => q x = true) (iter e).
Proof.
  induction e as [e IH] using element_tree_ind. intros Hall.
  rewrite every_node_eq in Hall. apply andb_prop in Hall as [Hq Hkids].
  unfold iter. constructor; [exact Hq|]. rewrite iterdescendants_eq.
  induction IH as [|c cs Hc _ IHcs]; [constructor|].
  cbn [List.forallb] in Hkids. apply andb_prop in Hkids as [Hc' Hcs'].
  cbn [List.flat_map]. apply List.Forall_app. split; [now apply Hc|now apply IHcs].
Qed.

(** X17. In a document that declares a default namespace and whose
    elements all have a tag in a namespace, the path [charDecl/char]
    reaches no node after the pass of [update_from_p5_file]: nothing of
    such a document can be stored. *)
Theorem char_nodes_of_namespaced_document (doc : ElementTree) (uri : str) :
  dict_get (nsmap doc) None = Some uri ->
  wf_element (getroot doc) = true ->
  every_node tag_clark (getroot doc) = true ->
  every_node in_namespace (getroot doc) = true ->
  char_nodes doc = Ok [].
Proof.
  intros Hns Hwf Hclark Hin.
  destruct (scan_pass_run doc uri Hns Hwf Hclark)
    as (doc' & Hrun & Hshape).
  unfold char_nodes.
  destruct (namespace_of doc) as [namespace|]; [|discriminate].
  cbn [rbind] in Hrun |- *. rewrite Hrun. cbn [rbind]. f_equal.
  assert (every_node in_namespace (getroot doc') = true) as Hin'.
  { refine (same_shape_every in_namespace in_namespace _ _ _ _ Hin Hshape).
    intros e e' He Htag. unfold in_namespace in *. now rewrite Htag. }
  apply every_node_iter in Hin'. unfold iter in Hin'.
  inversion Hin' as [|? ? _ Hdesc]; subst.
  unfold findall_desc_child.
  assert (List.filter (has_tag (lit "charDecl"))
            (iterdescendants (getroot doc')) = []) as ->; [|reflexivity].
  clear Hin'. induction Hdesc as [|x xs Hx _ IHxs]; [reflexivity|].
  cbn [List.filter]. rewrite IHxs.
  assert (has_tag (lit "charDecl") x = false) as ->; [|reflexivity].
  unfold has_tag. apply bool_decide_eq_false. intros Htag.
  unfold in_namespace in Hx. rewrite Htag in Hx. discriminate.
Qed.

Lemma char_nodes_of_namespaced_document_witness :
  char_nodes Fixture.doc_ns = Ok [].
Proof.
  apply (char_nodes_of_namespaced_document Fixture.doc_ns (lit "urn:test"));
    reflexivity.
Defined.

(** ** Comments *)

Lemma rename_attributes_wf (e : element) :
  attrs_wf e = true ->
  exists a', rename_attributes (attrib e) (dict_keys (attrib e)) = Ok a'.
Proof.
  unfold attrs_wf. intros H. apply andb_prop in H as [Hd Hc].
  destruct (rename_attributes_node (attrib e)) as (a' & Hrun & _).
  - now apply distinct_NoDup.
  - now apply List.forallb_forall.
  - eauto.
Qed.

(** The pass raises [AttributeError] when the tree has a node that is not
    an element, and returns when it has none. *)
Lemma remove_namespace_element_special (p : str) (e : element) :
  every_node attrs_wf e = true ->
  (some_node is_special e = true ->
   remove_namespace_element p e = Raise AttributeError) /\
  (some_node is_special e = false ->
   exists e', remove_namespace_element p e = Ok e').
Proof.
  induction e as [e IH] using element_tree_ind. intros Hall.
  rewrite every_node_eq in Hall. apply andb_prop in Hall as [Hattrs Hkids].
  rewrite some_node_eq, remove_namespace_element_eq. unfold is_special.
  destruct (tag e) as [name|]; [|split; [reflexivity|discriminate]].
  assert (exists t', remove_namespace_tag p (Tag name) = Ok t') as (t' & ->).
  { cbn [remove_namespace_tag]. destruct (startswith name p); eauto. }
  destruct (rename_attributes_wf e Hattrs) as (a' & ->).
  cbn [rbind orb].
  assert ((List.existsb (some_node is_special) (children e) = true ->
           map_result (remove_namespace_element p) (children e)
           = Raise AttributeError) /\
          (List.existsb (some_node is_special) (children e) = false ->
           exists cs', map_result (remove_namespace_element p) (children e)
                       = Ok cs')) as [Hyes Hno].
  { clear - IH Hkids. induction IH as [|c cs Hc _ IHcs].
    - split; [discriminate|]. intros _. now exists [].
    - cbn [List.forallb] in Hkids. apply andb_prop in Hkids as [Hc' Hcs'].
      destruct (Hc Hc') as [Hcyes Hcno]. destruct (IHcs Hcs') as [Hyes Hno].
      cbn [List.existsb map_result].
      destruct (some_node is_special c).
      + split; [|discriminate]. intros _. now rewrite Hcyes.
      + destruct (Hcno eq_refl) as (c' & ->). cbn [orb rbind]. split.
        * intros H. now rewrite (Hyes H).
        * intros H. destruct (Hno H) as (cs' & ->). eauto. }
  split.
  - intros H. now rewrite (Hyes H).
  - intros H. destruct (Hno H) as (cs' & ->). eauto.
Qed.

(** X18. On a tree that holds a comment, a processing instruction or an
    entity, [remove_namespace] raises [AttributeError] (the tag of such a
    node is no string); on a tree of elements only it returns. *)
Theorem remove_namespace_special_node (doc : ElementTree) (namespace : str) :
  every_node attrs_wf (getroot doc) = true ->
  (some_node is_special (getroot doc) = true ->
   remove_namespace doc namespace = Raise AttributeError) /\
  (some_node is_special (getroot doc) = false ->
   exists doc', remove_namespace doc namespace = Ok doc').
Proof.
  intros Hall. unfold remove_namespace.
  destruct (remove_namespace_element_special
              (lit "{" ++ namespace ++ lit "}") (getroot doc) Hall)
    as [Hyes Hno].
  split.
  - intros H. now rewrite (Hyes H).
  - intros H. destruct (Hno H) as (root' & ->). eauto.
Qed.

Lemma remove_namespace_special_node_witness :
  remove_namespace Fixture.doc_comment (lit "") = Raise AttributeError.
Proof.
  apply (remove_namespace_special_node Fixture.doc_comment (lit ""));
    reflexivity.
Defined.

Lemma init_never_returns_witness :
  __init__ Fixture.host_with_file Sample.st_table
  = (Sample.st_table, Raise TypeError).
Proof.
  destruct (init_never_returns Fixture.host_with_file Sample.st_table)
    as (e & Hrun & He).
  rewrite Hrun. f_equal. f_equal.
  apply (He (lit "/srv/lib/cbeta_missing/cbeta_missing_character.py/../resources/missing_character.json")
            (lit "{}")); reflexivity.
Defined.
